(** * ELL / EMLL: the incremental variance feature, its lowering to a layer
    graph, and the IR optimizer

    A shallow embedding of

    - [features::IncrementalVarianceFeature] (IncrementalVarianceFeature.cpp):
      [ComputeOutput], [AddToModel] and [Create];
    - [emitters::IROptimizer] (IROptimizer.cpp): [AddStandardPasses],
      [OptimizeFunction] and [OptimizeModule].

    Conventions.

    - [size_t] and [uint64_t] values are [N] with the 64-bit wrap-around
      written out ([size_add], [size_sub]).
    - [double] is a type [num] with the operations the code uses (class
      [Numeric]).  Every function is written once, over any [Numeric]; the
      instance [binary64] is IEEE 754 double precision (Rocq's primitive
      floats) and is what the C++ runs on, the instance [exact] is the
      rationals, the arithmetic the formulas are derived in.
    - A thrown [utilities::Exception] is the left summand of a sum type.
      Where the code mutates an argument before it throws, the function also
      returns the mutated argument.
    - [assert]s are preconditions: the model does not evaluate them and the
      theorems assume them where they matter. *)

From Stdlib Require Import ZArith NArith List String Ascii Floats Uint63 Ring.
From Stdlib Require Import QArith Qcanon.
From stdpp Require Import gmap strings list.

Local Open Scope N_scope.

(* ================================================================== *)
(** * utilities *)
(* ================================================================== *)

Module utilities.

(** [utilities::ExceptionErrorCodes]: the codes the two files throw. *)
Inductive ExceptionErrorCodes : Set :=
| invalidArgument
| illegalState
| badStringFormat.

(** What a [throw] carries: a [utilities::Exception(code, message)], or the
    [std::bad_cast] of a failed [dynamic_cast] to a reference. *)
Inductive exception : Set :=
| Exception (errorCode : ExceptionErrorCodes) (message : string)
| bad_cast.

(** A computation that returns an [A] or throws. *)
Definition Result (A : Type) : Type := exception + A.

Definition throws {A : Type} (m : Result A) : Prop :=
  match m with
  | inl _ => True
  | inr _ => False
  end.

End utilities.

Import utilities.

(* ================================================================== *)
(** * Machine integers: [size_t] *)
(* ================================================================== *)

Definition SIZE_WIDTH : N := 64.
Definition SIZE_MODULUS : N := 2 ^ SIZE_WIDTH.

(** [a + b] on [size_t]. *)
Definition size_add (a b : N) : N := (a + b) mod SIZE_MODULUS.

(** [a - b] on [size_t]: [0 - 1] is [2^64 - 1]. *)
Definition size_sub (a b : N) : N :=
  Z.to_N ((Z.of_N a - Z.of_N b) mod Z.of_N SIZE_MODULUS).

(** [v[k]] for a [size_t] index, [None] out of range. *)
Fixpoint lookupN {A : Type} (l : list A) (k : N) : option A :=
  match l with
  | [] => None
  | x :: l' => if N.eqb k 0 then Some x else lookupN l' (N.pred k)
  end.

(** The first [k] elements, for a [size_t] count. *)
Fixpoint takeN {A : Type} (k : N) (l : list A) : list A :=
  match l with
  | [] => []
  | x :: l' => if N.eqb k 0 then [] else x :: takeN (N.pred k) l'
  end.

(* ================================================================== *)
(** * Arithmetic on [double] *)
(* ================================================================== *)

(** The operations of [double] the code uses.  [of_size_t] is the
    conversion [(double)n] the compiler inserts in [x / windowSize]. *)
Class Numeric (num : Type) : Type := {
  num_zero : num;
  num_add : num -> num -> num;
  num_sub : num -> num -> num;
  num_mul : num -> num -> num;
  num_div : num -> num -> num;
  of_size_t : N -> num
}.

Declare Scope num_scope.
Delimit Scope num_scope with num.
Infix "+" := num_add : num_scope.
Infix "-" := num_sub : num_scope.
Infix "*" := num_mul : num_scope.
Infix "/" := num_div : num_scope.

(** [(double)n] for a 64-bit unsigned [n], round to nearest even.  Below
    [2^63] it is the primitive conversion; from [2^63] on the value is
    halved with a sticky low bit, converted and doubled, which rounds the
    same way. *)
Definition double_of_size_t (n : N) : float :=
  if N.ltb n (2 ^ 63) then PrimFloat.of_uint63 (Uint63.of_Z (Z.of_N n))
  else
    let halved := N.lor (N.shiftr n 1) (N.land n 1) in
    PrimFloat.mul (PrimFloat.of_uint63 (Uint63.of_Z (Z.of_N halved)))
                  (PrimFloat.of_uint63 (Uint63.of_Z 2)).

(** IEEE 754 binary64: the arithmetic the C++ code runs on. *)
#[export] Instance binary64 : Numeric float := {|
  num_zero := PrimFloat.of_uint63 (Uint63.of_Z 0);
  num_add := PrimFloat.add;
  num_sub := PrimFloat.sub;
  num_mul := PrimFloat.mul;
  num_div := PrimFloat.div;
  of_size_t := double_of_size_t
|}.

(** Exact arithmetic on the rationals. *)
#[export] Instance exact : Numeric Qc := {|
  num_zero := Q2Qc 0;
  num_add := Qcplus;
  num_sub := Qcminus;
  num_mul := Qcmult;
  num_div := Qcdiv;
  of_size_t := fun n => Q2Qc (inject_Z (Z.of_N n))
|}.

(** The laws of exact arithmetic the variance identity needs: addition,
    subtraction and multiplication form a commutative ring.  Division is
    left free. *)
Definition ExactArithmetic (num : Type) `{Numeric num} (one : num) (opp : num -> num) : Prop :=
  ring_theory num_zero one num_add num_mul num_sub opp (@eq num).

(* ================================================================== *)
(** * layers: the Model, its primitive layers and their execution *)
(* ================================================================== *)

Module layers.

(** [layers::Coordinate]: one output element of one layer of the model. *)
Record Coordinate : Set := mkCoordinate {
  layerIndex : nat;
  elementIndex : nat
}.

#[export] Instance Coordinate_eq_dec : EqDecision Coordinate.
Proof. solve_decision. Defined.

(** [layers::CoordinateList]. *)
Abbreviation CoordinateList := (list Coordinate).

(** [BinaryOperationLayer::OperationType]. *)
Inductive OperationType : Set := add | subtract | multiply | divide.

Section Layers.
Context {num : Type} `{Numeric num}.

(** Modelled from the spec: the layer kinds (section 4.4; ConstantLayer.h,
    ShiftRegisterLayer.h, AccumulatorLayer.h and BinaryOperationLayer.h are
    not among the sources).  [InputLayer n] is the model's input port of
    width [n], through which the sample of a tick enters the graph. *)
Inductive Layer : Type :=
| InputLayer (size : nat)
| ConstantLayer (values : list num)
| ShiftRegisterLayer (input : CoordinateList) (depth : N)
| AccumulatorLayer (input : CoordinateList)
| BinaryOperationLayer (input1 input2 : CoordinateList) (operation : OperationType).

(** Modelled from the spec: [layers::Model], the owning container of the
    layers in creation order (section 3). *)
Local Abbreviation Model := (list Layer).

(** Modelled from the spec: the width of a layer's output. A shift register
    of depth [n] over a signal of width [d] exposes its [n] stored samples,
    [d * n] elements. *)
Definition OutputSize (layer : Layer) : nat :=
  match layer with
  | InputLayer size => size
  | ConstantLayer values => length values
  | ShiftRegisterLayer input depth => (N.to_nat depth * length input)%nat
  | AccumulatorLayer input => length input
  | BinaryOperationLayer input1 _ _ => length input1
  end.

(** A coordinate refers to an element of a layer already in the model. *)
Definition valid_coordinate (model : Model) (c : Coordinate) : bool :=
  match model !! layerIndex c with
  | Some layer => bool_decide (elementIndex c < OutputSize layer)%nat
  | None => false
  end.

Definition valid_coordinates (model : Model) (cs : CoordinateList) : bool :=
  forallb (valid_coordinate model) cs.

(** The coordinate lists a layer reads. *)
Definition layer_inputs (layer : Layer) : list CoordinateList :=
  match layer with
  | InputLayer _ | ConstantLayer _ => []
  | ShiftRegisterLayer input _ | AccumulatorLayer input => [input]
  | BinaryOperationLayer input1 input2 _ => [input1; input2]
  end.

(** The two inputs of a binary operation have the same width. *)
Definition widths_match (layer : Layer) : bool :=
  match layer with
  | BinaryOperationLayer input1 input2 _ =>
      bool_decide (length input1 = length input2)
  | _ => true
  end.

(** The coordinates of all the outputs of the layer at [index]. *)
Definition BuildCoordinateList (index size : nat) : CoordinateList :=
  map (mkCoordinate index) (seq 0 size).

(** Code that builds a model: it may append layers and may throw; the model
    it leaves behind is returned in both cases, as the C++ mutates the
    [Model&] it is given. *)
Definition Build (A : Type) : Type := Model -> Result A * Model.

Definition ret {A : Type} (a : A) : Build A := fun model => (inr a, model).

Definition throw {A : Type} (e : exception) : Build A := fun model => (inl e, model).

Definition bind {A B : Type} (m : Build A) (k : A -> Build B) : Build B :=
  fun model =>
    match m model with
    | (inl e, model') => (inl e, model')
    | (inr a, model') => k a model'
    end.

(** Modelled from the spec: [Model::EmplaceLayer<LayerKind>(inputs...)]
    appends a layer and returns the coordinates of its output (section 4.3).
    A layer that reads a coordinate of a layer not yet in the model is
    rejected (section 3, topological order), and so is a binary operation
    over inputs of different widths (section 7). *)
Definition EmplaceLayer (layer : Layer) : Build CoordinateList :=
  fun model =>
    if negb (forallb (valid_coordinates model) (layer_inputs layer)) then
      (inl (Exception illegalState "Layer refers to a layer not yet in the model"), model)
    else if negb (widths_match layer) then
      (inl (Exception invalidArgument "Input sizes do not match"), model)
    else
      (inr (BuildCoordinateList (length model) (OutputSize layer)), model ++ [layer]).

(** Modelled from the spec: [Model::GetLastLayer] followed by
    [dynamic_cast<const ShiftRegisterLayer&>], which throws [std::bad_cast]
    on another kind of layer.  The result is the layer's input and depth. *)
Definition GetLastLayer_as_ShiftRegisterLayer : Build (CoordinateList * N) :=
  fun model =>
    match last model with
    | Some (ShiftRegisterLayer input depth) => (inr (input, depth), model)
    | _ => (inl bad_cast, model)
    end.

(** Modelled from the spec: [ShiftRegisterLayer::GetDelayedOutputCoordinates]:
    of the layer's output coordinates, those of the sample delayed by [delay]
    steps.  The samples are laid out one after the other, the newest first. *)
Definition GetDelayedOutputCoordinates (shiftRegisterLayer : CoordinateList * N)
    (outputCoordinates : CoordinateList) (delay : N) : CoordinateList :=
  let inputDimension := length (fst shiftRegisterLayer) in
  take inputDimension (drop (N.to_nat delay * inputDimension) outputCoordinates).

(** Modelled from the spec: [layers::RepeatCoordinates] (CoordinateListTools.h):
    the coordinates repeated [numRepeats] times, which broadcasts a scalar. *)
Definition RepeatCoordinates (coordinates : CoordinateList) (numRepeats : nat) : CoordinateList :=
  concat (replicate numRepeats coordinates).

(** ** Execution of a model, one tick at a time *)

Definition apply_operation (operation : OperationType) (a b : num) : num :=
  match operation with
  | add => (a + b)%num
  | subtract => (a - b)%num
  | multiply => (a * b)%num
  | divide => (a / b)%num
  end.

(** The value at a coordinate, given the outputs of the layers computed so
    far in this tick. *)
Definition read (outputs : list (list num)) (c : Coordinate) : num :=
  default num_zero (outputs !! layerIndex c ≫= fun out => out !! elementIndex c).

Definition reads (outputs : list (list num)) (cs : CoordinateList) : list num :=
  map (read outputs) cs.

(** The run-time state of one layer: the stored samples of a shift
    register, newest first; the totals of an accumulator, as one row; nothing
    for the other layers.  The empty state stands for all zeros. *)
Local Abbreviation LayerState := (list (list num)).

(** Modelled from the spec: the output of a shift register of depth [depth]
    over width [d]: the stored samples, newest first, zero where no sample was
    pushed yet. *)
Definition shift_register_output (d : nat) (depth : N) (contents : LayerState) : list num :=
  concat (map (fun k => default (replicate d num_zero) (contents !! k))
              (seq 0 (N.to_nat depth))).

(** Modelled from the spec: what each layer computes in one tick (section
    4.4).  A shift register pushes its input and exposes the samples it
    holds, the one just pushed at delay 0; an accumulator adds its input to
    its totals and outputs the totals. *)
Definition compute_layer (sample : list num) (outputs : list (list num))
    (layer : Layer) (state : LayerState) : list num * LayerState :=
  match layer with
  | InputLayer size => (resize size num_zero sample, [])
  | ConstantLayer values => (values, [])
  | ShiftRegisterLayer input depth =>
      let contents := takeN depth (reads outputs input :: state) in
      (shift_register_output (length input) depth contents, contents)
  | AccumulatorLayer input =>
      let totals := zip_with num_add (resize (length input) num_zero (hd [] state))
                                     (reads outputs input) in
      (totals, [totals])
  | BinaryOperationLayer input1 input2 operation =>
      (zip_with (apply_operation operation) (reads outputs input1) (reads outputs input2), [])
  end.

(** One tick over the layers in creation order. [outputs] are the outputs
    of the layers before them. *)
Fixpoint compute_layers (sample : list num) (model : list Layer)
    (states : list LayerState) (outputs : list (list num))
    : list (list num) * list LayerState :=
  match model with
  | [] => (outputs, [])
  | layer :: rest =>
      let '(output, state') := compute_layer sample outputs layer (hd [] states) in
      let '(outputs', states') :=
        compute_layers sample rest (tl states) (outputs ++ [output]) in
      (outputs', state' :: states')
  end.

(** Modelled from the spec: [Model::Compute]: one tick of the whole model on
    one sample. *)
Definition Compute (model : Model) (states : list LayerState) (sample : list num)
    : list (list num) * list LayerState :=
  compute_layers sample model states [].

(** The values at [coordinates] at every tick of a run over [samples]. *)
Fixpoint simulate (model : Model) (states : list LayerState)
    (samples : list (list num)) (coordinates : CoordinateList) : list (list num) :=
  match samples with
  | [] => []
  | sample :: rest =>
      let '(outputs, states') := Compute model states sample in
      reads outputs coordinates :: simulate model states' rest coordinates
  end.

End Layers.

Arguments Layer num : clear implicits.
Arguments Build num : clear implicits.

Abbreviation Model num := (list (Layer num)).
Abbreviation LayerState num := (list (list num)).

(* ------------------------------------------------------------------ *)
(** ** Facts on building a model *)
(* ------------------------------------------------------------------ *)

Section BuildFacts.
Context {num : Type} `{Numeric num}.

Lemma valid_coordinates_Forall (model : Model num) (cs : CoordinateList) :
  valid_coordinates model cs = true <->
  Forall (fun c => valid_coordinate model c = true) cs.
Proof.
  unfold valid_coordinates. induction cs as [|c cs IH]; simpl.
  - split; [constructor | reflexivity].
  - rewrite andb_true_iff, IH. split.
    + intros [Hc Hcs]. constructor; assumption.
    + intros Hall. apply Forall_cons in Hall. exact Hall.
Qed.

Lemma valid_coordinate_app (model extension : Model num) (c : Coordinate) :
  valid_coordinate model c = true -> valid_coordinate (model ++ extension) c = true.
Proof.
  unfold valid_coordinate.
  destruct (model !! layerIndex c) as [layer|] eqn:Hl; [|discriminate].
  rewrite (lookup_app_l_Some _ _ _ _ Hl). trivial.
Qed.

Lemma valid_coordinates_app (model extension : Model num) (cs : CoordinateList) :
  valid_coordinates model cs = true -> valid_coordinates (model ++ extension) cs = true.
Proof.
  rewrite !valid_coordinates_Forall. intros Hall.
  eapply Forall_impl; [exact Hall|].
  intros c. apply valid_coordinate_app.
Qed.

Lemma valid_BuildCoordinateList (model : Model num) (index size : nat) (layer : Layer num) :
  model !! index = Some layer -> (size <= OutputSize layer)%nat ->
  valid_coordinates model (BuildCoordinateList index size) = true.
Proof.
  intros Hl Hsize. apply valid_coordinates_Forall. unfold BuildCoordinateList.
  apply Forall_map, Forall_forall. intros e He.
  apply elem_of_seq in He. unfold valid_coordinate; simpl. rewrite Hl.
  apply bool_decide_eq_true. lia.
Qed.

Lemma valid_new_layer (model extension : Model num) (k size : nat) (layer : Layer num) :
  extension !! k = Some layer -> (size <= OutputSize layer)%nat ->
  valid_coordinates (model ++ extension) (BuildCoordinateList (length model + k) size) = true.
Proof.
  intros Hl Hsize. apply (valid_BuildCoordinateList _ _ _ layer); [|exact Hsize].
  rewrite lookup_app_r by lia.
  replace (length model + k - length model)%nat with k by lia. exact Hl.
Qed.

Lemma valid_first_new_layer (model extension : Model num) (size : nat) (layer : Layer num) :
  extension !! 0%nat = Some layer -> (size <= OutputSize layer)%nat ->
  valid_coordinates (model ++ extension) (BuildCoordinateList (length model) size) = true.
Proof.
  intros Hl Hsize. rewrite <- (Nat.add_0_r (length model)).
  apply (valid_new_layer model extension 0 size layer Hl Hsize).
Qed.

Lemma valid_coordinates_slice (model : Model num) (cs : CoordinateList) (n m : nat) :
  valid_coordinates model cs = true ->
  valid_coordinates model (take n (drop m cs)) = true.
Proof.
  rewrite !valid_coordinates_Forall. intros Hall.
  apply Forall_take, Forall_drop, Hall.
Qed.

Lemma valid_RepeatCoordinates (model : Model num) (cs : CoordinateList) (n : nat) :
  valid_coordinates model cs = true ->
  valid_coordinates model (RepeatCoordinates cs n) = true.
Proof.
  rewrite !valid_coordinates_Forall. intros Hall. unfold RepeatCoordinates.
  apply Forall_concat, Forall_replicate, Hall.
Qed.

(** A well-formed layer is appended, and its coordinates are returned. *)
Lemma bind_EmplaceLayer {A : Type} (layer : Layer num) (k : CoordinateList -> Build num A)
    (model : Model num) :
  forallb (valid_coordinates model) (layer_inputs layer) = true ->
  widths_match layer = true ->
  bind (EmplaceLayer layer) k model =
    k (BuildCoordinateList (length model) (OutputSize layer)) (model ++ [layer]).
Proof.
  intros Hvalid Hwidths. unfold bind, EmplaceLayer.
  rewrite Hvalid, Hwidths. reflexivity.
Qed.

Lemma bind_GetLastLayer {A : Type} (k : CoordinateList * N -> Build num A)
    (model : Model num) (input : CoordinateList) (depth : N) :
  last model = Some (ShiftRegisterLayer input depth) ->
  bind GetLastLayer_as_ShiftRegisterLayer k model = k (input, depth) model.
Proof.
  intros Hlast. unfold bind, GetLastLayer_as_ShiftRegisterLayer.
  rewrite Hlast. reflexivity.
Qed.

Lemma length_BuildCoordinateList (index size : nat) :
  length (BuildCoordinateList index size) = size.
Proof. unfold BuildCoordinateList. rewrite length_map, length_seq. reflexivity. Qed.

Lemma length_RepeatCoordinates (cs : CoordinateList) (n : nat) :
  length (RepeatCoordinates cs n) = (n * length cs)%nat.
Proof.
  unfold RepeatCoordinates. induction n as [|n IH]; simpl; [reflexivity|].
  rewrite length_app, IH. reflexivity.
Qed.

(** Building code only appends to the model, also when it throws. *)
Definition appends_only {A : Type} (b : Build num A) : Prop :=
  forall model, exists extension, snd (b model) = model ++ extension.

Lemma appends_only_ret {A : Type} (a : A) : appends_only (ret a).
Proof. intros model. exists []. cbn. rewrite app_nil_r. reflexivity. Qed.

Lemma appends_only_EmplaceLayer (layer : Layer num) : appends_only (EmplaceLayer layer).
Proof.
  intros model. unfold EmplaceLayer.
  destruct (negb (forallb (valid_coordinates model) (layer_inputs layer))).
  { exists []. cbn. rewrite app_nil_r. reflexivity. }
  destruct (negb (widths_match layer)).
  { exists []. cbn. rewrite app_nil_r. reflexivity. }
  exists [layer]. reflexivity.
Qed.

Lemma appends_only_GetLastLayer : appends_only GetLastLayer_as_ShiftRegisterLayer.
Proof.
  intros model. exists []. unfold GetLastLayer_as_ShiftRegisterLayer.
  rewrite app_nil_r. destruct (last model) as [[]|]; reflexivity.
Qed.

Lemma appends_only_bind {A B : Type} (m : Build num A) (k : A -> Build num B) :
  appends_only m -> (forall a, appends_only (k a)) -> appends_only (bind m k).
Proof.
  intros Hm Hk model. unfold bind. destruct (Hm model) as [ext1 H1].
  destruct (m model) as [[e|a] model1]; cbn [snd] in *.
  - exists ext1. exact H1.
  - destruct (Hk a model1) as [ext2 H2]. exists (ext1 ++ ext2).
    rewrite H2, H1, app_assoc. reflexivity.
Qed.

End BuildFacts.

(* ------------------------------------------------------------------ *)
(** ** Facts on the execution of a model *)
(* ------------------------------------------------------------------ *)

Section SimulationFacts.
Context {num : Type} `{Numeric num}.

Lemma compute_layers_cons (sample : list num) (layer : Layer num) (rest : Model num)
    (states : list (LayerState num)) (outputs : list (list num)) :
  compute_layers sample (layer :: rest) states outputs =
    let r := compute_layer sample outputs layer (hd [] states) in
    let r' := compute_layers sample rest (tl states) (outputs ++ [fst r]) in
    (fst r', snd r :: snd r').
Proof.
  cbn [compute_layers].
  destruct (compute_layer sample outputs layer (hd [] states)) as [output state'].
  cbn [fst snd].
  destruct (compute_layers sample rest (tl states) (outputs ++ [output])) as [outputs' states'].
  reflexivity.
Qed.

Lemma compute_layers_step (sample : list num) (layer : Layer num) (rest : Model num)
    (states : list (LayerState num)) (outputs : list (list num))
    (output : list num) (state' : LayerState num)
    (outputs' : list (list num)) (states' : list (LayerState num)) :
  compute_layer sample outputs layer (hd [] states) = (output, state') ->
  compute_layers sample rest (tl states) (outputs ++ [output]) = (outputs', states') ->
  compute_layers sample (layer :: rest) states outputs = (outputs', state' :: states').
Proof. intros Hlayer Hrest. cbn [compute_layers]. rewrite Hlayer, Hrest. reflexivity. Qed.

Lemma drop_S_tl {A : Type} (n : nat) (l : list A) : drop (S n) l = drop n (tl l).
Proof. destruct l; simpl; [rewrite drop_nil|]; reflexivity. Qed.

(** The layers of a model are computed in order: the first layers do not
    depend on those appended after them. *)
Lemma compute_layers_app (sample : list num) (model1 model2 : Model num) :
  forall (states : list (LayerState num)) (outputs : list (list num)),
    compute_layers sample (model1 ++ model2) states outputs =
      let r1 := compute_layers sample model1 states outputs in
      let r2 := compute_layers sample model2 (drop (length model1) states) (fst r1) in
      (fst r2, snd r1 ++ snd r2).
Proof.
  induction model1 as [|layer model1 IH]; intros states outputs.
  - cbn [app length compute_layers fst snd]. rewrite drop_0.
    destruct (compute_layers sample model2 states outputs). reflexivity.
  - rewrite <- app_comm_cons, !compute_layers_cons. cbn zeta.
    rewrite IH. cbn [fst snd length]. rewrite drop_S_tl. reflexivity.
Qed.

Lemma compute_layers_take (sample : list num) (model : Model num) :
  forall (states : list (LayerState num)) (outputs : list (list num)),
    compute_layers sample model (take (length model) states) outputs =
      compute_layers sample model states outputs.
Proof.
  induction model as [|layer model IH]; intros states outputs; [reflexivity|].
  rewrite !compute_layers_cons. cbn zeta.
  destruct states as [|state states]; cbn [length take hd tl].
  - rewrite <- (IH [] _), take_nil. reflexivity.
  - rewrite IH. reflexivity.
Qed.

Lemma compute_layers_lengths (sample : list num) (model : Model num) :
  forall (states : list (LayerState num)) (outputs : list (list num)),
    length (fst (compute_layers sample model states outputs)) =
      (length outputs + length model)%nat /\
    length (snd (compute_layers sample model states outputs)) = length model.
Proof.
  induction model as [|layer model IH]; intros states outputs.
  - cbn. split; [lia|reflexivity].
  - rewrite compute_layers_cons. cbn zeta. cbn [fst snd length].
    destruct (IH (tl states)
                 (outputs ++ [fst (compute_layer sample outputs layer (hd [] states))]))
      as [Ho Hs].
    rewrite Ho, Hs, length_app. cbn [length]. split; lia.
Qed.

(** Reading coordinates of the layers computed so far is not affected by
    the outputs of later layers. *)
Lemma read_app (outputs later : list (list num)) (c : Coordinate) :
  (layerIndex c < length outputs)%nat ->
  read (outputs ++ later) c = read outputs c.
Proof. intros Hc. unfold read. rewrite lookup_app_l by exact Hc. reflexivity. Qed.

Lemma reads_app (outputs later : list (list num)) (cs : CoordinateList) :
  Forall (fun c => (layerIndex c < length outputs)%nat) cs ->
  reads (outputs ++ later) cs = reads outputs cs.
Proof.
  intros Hcs. unfold reads. apply map_ext_Forall.
  eapply Forall_impl; [exact Hcs|]. intros c Hc. apply read_app, Hc.
Qed.

Lemma valid_coordinates_lt (model : Model num) (cs : CoordinateList) :
  valid_coordinates model cs = true ->
  Forall (fun c => (layerIndex c < length model)%nat) cs.
Proof.
  rewrite valid_coordinates_Forall. intros Hall.
  eapply Forall_impl; [exact Hall|]. intros c. unfold valid_coordinate.
  destruct (model !! layerIndex c) eqn:Hl; [|discriminate].
  intros _. apply lookup_lt_Some in Hl. exact Hl.
Qed.

Lemma length_reads (outputs : list (list num)) (cs : CoordinateList) :
  length (reads outputs cs) = length cs.
Proof. unfold reads. apply length_map. Qed.

Lemma lookups_all (out : list num) :
  map (fun e => default num_zero (out !! e)) (seq 0 (length out)) = out.
Proof.
  apply list_eq. intros i. rewrite list_lookup_fmap.
  destruct (decide (i < length out)%nat) as [Hi|Hi].
  - rewrite lookup_seq_lt by exact Hi. cbn.
    destruct (lookup_lt_is_Some_2 out i Hi) as [x Hx]. rewrite Hx. reflexivity.
  - rewrite lookup_seq_ge by lia. rewrite lookup_ge_None_2 by lia. reflexivity.
Qed.

(** All the outputs of a computed layer, read through its coordinates. *)
Lemma reads_layer (outputs : list (list num)) (index size : nat) (out : list num) :
  outputs !! index = Some out -> length out = size ->
  reads outputs (BuildCoordinateList index size) = out.
Proof.
  intros Hout <-. unfold reads, BuildCoordinateList. rewrite map_map.
  unfold read. cbn [layerIndex elementIndex]. rewrite Hout. cbn [mbind option_bind].
  apply lookups_all.
Qed.

Lemma lookup_new_output (outputs later : list (list num)) (k : nat) (out : list num) :
  later !! k = Some out -> (outputs ++ later) !! (length outputs + k)%nat = Some out.
Proof.
  intros Hk. rewrite lookup_app_r by lia.
  replace (length outputs + k - length outputs)%nat with k by lia. exact Hk.
Qed.

Lemma lookup_concat_uniform (rows : list (list num)) (d : nat) :
  Forall (fun row => length row = d) rows ->
  forall k j, (j < d)%nat ->
    concat rows !! (k * d + j)%nat = rows !! k ≫= fun row => row !! j.
Proof.
  induction 1 as [|row rows Hrow Hrows IH]; intros k j Hj.
  - rewrite !lookup_nil. reflexivity.
  - cbn [concat]. destruct k as [|k].
    + cbn [Nat.mul Nat.add lookup list_lookup mbind option_bind].
      apply lookup_app_l. lia.
    + rewrite lookup_app_r by (rewrite Hrow; lia).
      replace (S k * d + j - length row)%nat with (k * d + j)%nat by (rewrite Hrow; lia).
      apply IH, Hj.
Qed.

Definition stored_sample (d : nat) (contents : LayerState num) (k : nat) : list num :=
  default (replicate d num_zero) (contents !! k).

Lemma length_stored_sample (d : nat) (contents : LayerState num) (k : nat) :
  Forall (fun row => length row = d) contents ->
  length (stored_sample d contents k) = d.
Proof.
  intros Hu. unfold stored_sample.
  destruct (contents !! k) as [row|] eqn:Hk; cbn [default].
  - exact (Forall_lookup_1 _ _ _ _ Hu Hk).
  - apply length_replicate.
Qed.

(** The coordinates of the sample delayed by [w] steps read that sample
    from the output of the shift register. *)
Lemma reads_delayed (outputs : list (list num)) (index d : nat) (depth : N)
    (contents : LayerState num) (w : nat) :
  outputs !! index = Some (shift_register_output d depth contents) ->
  Forall (fun row => length row = d) contents ->
  (w < N.to_nat depth)%nat ->
  reads outputs (take d (drop (w * d) (BuildCoordinateList index (N.to_nat depth * d)))) =
    stored_sample d contents w.
Proof.
  intros Hout Hu Hw. unfold BuildCoordinateList.
  rewrite skipn_map, firstn_map, drop_seq, take_seq.
  replace (d `min` (N.to_nat depth * d - w * d))%nat with d by nia.
  unfold reads. rewrite map_map. unfold read. cbn [layerIndex elementIndex].
  rewrite Hout. cbn [mbind option_bind].
  apply list_eq. intros j. rewrite list_lookup_fmap.
  destruct (decide (j < d)%nat) as [Hj|Hj].
  - rewrite lookup_seq_lt by exact Hj. cbn [fmap option_fmap option_map].
    unfold shift_register_output.
    rewrite (Nat.add_comm 0), Nat.add_0_r.
    rewrite (lookup_concat_uniform _ d) by
      (try exact Hj; apply Forall_map, Forall_forall; intros k _;
       apply (length_stored_sample d contents k Hu)).
    rewrite list_lookup_fmap, lookup_seq_lt by exact Hw.
    cbn [fmap option_fmap option_map mbind option_bind Nat.add].
    fold (stored_sample d contents w).
    pose proof (length_stored_sample d contents w Hu) as Hlen.
    destruct (lookup_lt_is_Some_2 (stored_sample d contents w) j ltac:(lia)) as [v Hv].
    rewrite Hv. reflexivity.
  - rewrite lookup_seq_ge by lia. cbn.
    symmetry. apply lookup_ge_None_2.
    rewrite (length_stored_sample d contents w Hu). lia.
Qed.

Lemma reads_broadcast (outputs : list (list num)) (index n : nat) (v : num) :
  outputs !! index = Some [v] ->
  reads outputs (RepeatCoordinates (BuildCoordinateList index 1) n) = replicate n v.
Proof.
  intros Hout. unfold RepeatCoordinates, BuildCoordinateList, reads. cbn [seq map].
  induction n as [|n IH]; [reflexivity|].
  cbn [replicate concat app map]. rewrite IH.
  unfold read at 1. cbn [layerIndex elementIndex]. rewrite Hout. reflexivity.
Qed.

End SimulationFacts.

End layers.

(* ================================================================== *)
(** * features: IncrementalVarianceFeature *)
(* ================================================================== *)

Module features.
Import layers.

Declare Scope build_scope.
Delimit Scope build_scope with build.
Notation "x <- c1 ;; c2" := (layers.bind c1 (fun x => c2))
  (at level 100, c1 at next level, right associativity) : build_scope.

(** A [Feature*]: an address, [nullptr] is 0. *)
Definition FeaturePtr : Set := N.
Definition nullptr : FeaturePtr := 0.

(** [uint64_t windowSize = ParseInt(...)]: the conversion of the parsed
    integer to 64 bits unsigned. *)
Definition to_uint64 (z : Z) : N := Z.to_N (z mod Z.of_N SIZE_MODULUS).

Section Features.
Context {num : Type} `{Numeric num}.

(** The object: the members of [Feature] ([_id], [_inputFeatures], the
    mutable [_outputDimension]), of [BufferedFeature] ([_windowSize], the
    mutable window [_samples], newest sample first) and of
    [IncrementalVarianceFeature] (the mutable [_runningSum] and
    [_runningSumSq]). *)
Record IncrementalVarianceFeature : Type := mkFeature {
  _id : string;
  _inputFeatures : list FeaturePtr;
  _outputDimension : nat;
  _windowSize : N;
  _samples : list (list num);
  _runningSum : list num;
  _runningSumSq : list num
}.

(** [IncrementalVarianceFeature(id, inputFeature, windowSize)]: a feature
    that has seen no sample. *)
Definition new_IncrementalVarianceFeature (id : string) (inputFeature : FeaturePtr)
    (windowSize : N) : IncrementalVarianceFeature :=
  {| _id := id;
     _inputFeatures := [inputFeature];
     _outputDimension := 0;
     _windowSize := windowSize;
     _samples := [];
     _runningSum := [];
     _runningSumSq := [] |}.

Definition GetWindowSize (self : IncrementalVarianceFeature) : N := _windowSize self.

(** Modelled from the spec: [BufferedFeature::GetDelayedSamples(k)] (the
    source of BufferedFeature is absent) "returns the input sample from [k]
    steps ago, zero-padded if history is incomplete" (section 4.1),
    "zero-filled (dimension matched, value zero) before the buffer has
    filled" (section 3).  Delay 0 is the sample pushed last. *)
Definition GetDelayedSamples (self : IncrementalVarianceFeature) (delay : N) : list num :=
  default (replicate (_outputDimension self) num_zero) (lookupN (_samples self) delay).

(** Modelled from the spec: [BufferedFeature::UpdateRowSamples(newSample)]
    "pushes a new sample into the window, evicting the oldest if at capacity"
    (section 4.1); the window holds "the last [windowSize] samples pushed"
    (section 3). *)
Definition UpdateRowSamples (self : IncrementalVarianceFeature) (row : list num)
    : IncrementalVarianceFeature :=
  {| _id := _id self;
     _inputFeatures := _inputFeatures self;
     _outputDimension := _outputDimension self;
     _windowSize := _windowSize self;
     _samples := takeN (_windowSize self) (row :: _samples self);
     _runningSum := _runningSum self;
     _runningSumSq := _runningSumSq self |}.

Definition set_outputDimension (self : IncrementalVarianceFeature) (d : nat)
    : IncrementalVarianceFeature :=
  {| _id := _id self;
     _inputFeatures := _inputFeatures self;
     _outputDimension := d;
     _windowSize := _windowSize self;
     _samples := _samples self;
     _runningSum := _runningSum self;
     _runningSumSq := _runningSumSq self |}.

Definition set_runningSums (self : IncrementalVarianceFeature) (runningSum runningSumSq : list num)
    : IncrementalVarianceFeature :=
  {| _id := _id self;
     _inputFeatures := _inputFeatures self;
     _outputDimension := _outputDimension self;
     _windowSize := _windowSize self;
     _samples := _samples self;
     _runningSum := runningSum;
     _runningSumSq := runningSumSq |}.

(** The body of the [for] loop of [ComputeOutput] at one index: the updated
    [_runningSum[index]] and [_runningSumSq[index]], and [result[index]]. *)
Definition update_sum (newVal oldVal runningSum : num) : num :=
  (runningSum + (newVal - oldVal))%num.

Definition update_sumSq (newVal oldVal runningSumSq : num) : num :=
  (runningSumSq + (newVal * newVal - oldVal * oldVal))%num.

Definition variance_of_sums (windowSize : N) (runningSum runningSumSq : num) : num :=
  ((runningSumSq - (runningSum * runningSum / of_size_t windowSize)) / of_size_t windowSize)%num.

(** The [for] loop of [ComputeOutput] over [index = 0 .. inputDimension - 1];
    the four vectors all have [inputDimension] elements.  It returns
    [result] and the updated [_runningSum] and [_runningSumSq]. *)
Fixpoint update_loop (windowSize : N) (inputData oldData runningSum runningSumSq : list num)
    : list num * (list num * list num) :=
  match inputData, oldData, runningSum, runningSumSq with
  | newVal :: inputData', oldVal :: oldData', s :: runningSum', q :: runningSumSq' =>
      let s' := update_sum newVal oldVal s in
      let q' := update_sumSq newVal oldVal q in
      let '(result, (sums, sumSqs)) :=
        update_loop windowSize inputData' oldData' runningSum' runningSumSq' in
      (variance_of_sums windowSize s' q' :: result, (s' :: sums, q' :: sumSqs))
  | _, _, _, _ => ([], ([], []))
  end.

(** [IncrementalVarianceFeature::ComputeOutput].  [inputData] is
    [_inputFeatures[0]->GetOutput()], the current output of the input
    feature.  The method is [const] and works on [mutable] members: the
    object it leaves behind is returned with the result. *)
Definition ComputeOutput (self : IncrementalVarianceFeature) (inputData : list num)
    : Result (list num * IncrementalVarianceFeature) :=
  let inputDimension := length inputData in
  if decide (inputDimension = 0%nat) then
    inl (Exception invalidArgument "Invalid input of size zero")
  else
    let self := set_outputDimension self inputDimension in
    let windowSize := GetWindowSize self in
    (* get the oldest sample *)
    let oldData := GetDelayedSamples self (size_sub windowSize 1) in
    let oldData := resize inputDimension num_zero oldData in
    let runningSum := resize inputDimension num_zero (_runningSum self) in
    let runningSumSq := resize inputDimension num_zero (_runningSumSq self) in
    let self := UpdateRowSamples self inputData in
    (* update the running sum and output *)
    let '(result, (runningSum, runningSumSq)) :=
      update_loop windowSize inputData oldData runningSum runningSumSq in
    inr (result, set_runningSums self runningSum runningSumSq).

(** The outputs of successive calls of [ComputeOutput], one per sample; a
    call that throws ends the run. *)
Fixpoint run (self : IncrementalVarianceFeature) (samples : list (list num))
    : list (list num) :=
  match samples with
  | [] => []
  | inputData :: rest =>
      match ComputeOutput self inputData with
      | inl _ => []
      | inr (result, self') => result :: run self' rest
      end
  end.

(** [IncrementalVarianceFeature::AddToModel]. *)
Definition AddToModel (self : IncrementalVarianceFeature)
    (featureOutputs : gmap FeaturePtr CoordinateList) : Build num CoordinateList :=
  match featureOutputs !! (_inputFeatures self !!! 0%nat) with
  | None => throw (Exception illegalState "Couldn't find input feature")
  | Some inputCoordinates =>
    let inputDimension := length inputCoordinates in
    let windowSize := GetWindowSize self in
    (* Make a layer holding the constant windowSize, broadcast to be wide
       enough to apply to all input dimensions *)
    (divisor <- EmplaceLayer (ConstantLayer [of_size_t windowSize]) ;;
     let divisorVector := RepeatCoordinates divisor inputDimension in
     (* Make a buffer that will hold windowSize samples *)
     bufferOutput <- EmplaceLayer (ShiftRegisterLayer inputCoordinates (size_add windowSize 1)) ;;
     shiftRegisterLayer <- GetLastLayer_as_ShiftRegisterLayer ;;
     (* Compute running sum by subtracting oldest value and adding newest *)
     let oldestSample :=
       GetDelayedOutputCoordinates shiftRegisterLayer bufferOutput windowSize in
     diff <- EmplaceLayer (BinaryOperationLayer inputCoordinates oldestSample subtract) ;;
     runningSum <- EmplaceLayer (AccumulatorLayer diff) ;;
     (* Square the sum of inputs and divide by window size *)
     squaredSum <- EmplaceLayer (BinaryOperationLayer runningSum runningSum multiply) ;;
     normSquaredSum <- EmplaceLayer (BinaryOperationLayer squaredSum divisorVector divide) ;;
     (* Accumulate running sum of squared samples *)
     newValueSquared <- EmplaceLayer (BinaryOperationLayer inputCoordinates inputCoordinates multiply) ;;
     oldValueSquared <- EmplaceLayer (BinaryOperationLayer oldestSample oldestSample multiply) ;;
     diffSquared <- EmplaceLayer (BinaryOperationLayer newValueSquared oldValueSquared subtract) ;;
     runningSquaredSum <- EmplaceLayer (AccumulatorLayer diffSquared) ;;
     (* Compute variance from above values
        (var = (sum(x^2) - (sum(x)^2 / N)) / N) *)
     varianceTimesN <- EmplaceLayer (BinaryOperationLayer runningSquaredSum normSquaredSum subtract) ;;
     variance <- EmplaceLayer (BinaryOperationLayer varianceTimesN divisorVector divide) ;;
     ret variance)%build
  end.

(** [Feature::FeatureMap]: features by id; an id may be bound to [nullptr]. *)
Definition FeatureMap : Type := gmap string FeaturePtr.

(** [previousFeatures[key]] on a standard associative container: an absent
    key is inserted with a value-initialized ([nullptr]) entry. *)
Definition subscript (previousFeatures : gmap string FeaturePtr) (key : string)
    : FeaturePtr * gmap string FeaturePtr :=
  match previousFeatures !! key with
  | Some p => (p, previousFeatures)
  | None => (nullptr, <[key := nullptr]> previousFeatures)
  end.

(** [ParseInt] (StringUtil.h) is not among the sources: [Create] is
    embedded over any [ParseInt] that returns an integer or throws. *)
Variable ParseInt : string -> Result Z.

(** [IncrementalVarianceFeature::Create].  [previousFeatures] is taken by
    reference and is returned as the call leaves it. *)
Definition Create (params : list string) (previousFeatures : gmap string FeaturePtr)
    : Result IncrementalVarianceFeature * gmap string FeaturePtr :=
  let featureId := params !!! 0%nat in
  let '(inputFeature, previousFeatures) := subscript previousFeatures (params !!! 2%nat) in
  match ParseInt (params !!! 3%nat) with
  | inl e => (inl e, previousFeatures)
  | inr parsed =>
      let windowSize := to_uint64 parsed in
      if decide (inputFeature = nullptr) then
        (inl (Exception badStringFormat
                ("Error deserializing feature description: unknown input feature "
                   ++ params !!! 2%nat)),
         previousFeatures)
      else
        (inr (new_IncrementalVarianceFeature featureId inputFeature windowSize),
         previousFeatures)
  end.

End Features.

(* ------------------------------------------------------------------ *)
(** ** The interpreted evaluator: [ComputeOutput] *)
(* ------------------------------------------------------------------ *)

Section ComputeOutputFacts.
Context {num : Type} `{Numeric num}.

(** The loop in closed form: the running sums receive the difference of the
    entering and the leaving sample, and the result is computed from the
    updated sums. *)
Definition delta_sum (inputData oldData : list num) : list num :=
  zip_with num_sub inputData oldData.

Definition delta_sumSq (inputData oldData : list num) : list num :=
  zip_with num_sub (zip_with num_mul inputData inputData)
                   (zip_with num_mul oldData oldData).

Lemma update_loop_closed_form (windowSize : N) (inputData oldData s q : list num) :
  length oldData = length inputData ->
  length s = length inputData ->
  length q = length inputData ->
  update_loop windowSize inputData oldData s q =
    (zip_with (variance_of_sums windowSize)
       (zip_with num_add s (delta_sum inputData oldData))
       (zip_with num_add q (delta_sumSq inputData oldData)),
     (zip_with num_add s (delta_sum inputData oldData),
      zip_with num_add q (delta_sumSq inputData oldData))).
Proof.
  revert oldData s q.
  induction inputData as [|newVal inputData IH]; intros [|oldVal oldData] [|s0 s] [|q0 q];
    simpl; intros Ho Hs Hq; try discriminate; [reflexivity|].
  rewrite (IH oldData s q) by congruence.
  reflexivity.
Qed.

(** The vector of the sample that leaves the window, as [ComputeOutput]
    reads it before it pushes [inputData]. *)
Definition leaving_sample (self : IncrementalVarianceFeature) (inputData : list num) : list num :=
  resize (length inputData) num_zero
    (GetDelayedSamples (set_outputDimension self (length inputData))
       (size_sub (GetWindowSize self) 1)).

Definition sums_after (self : IncrementalVarianceFeature) (inputData : list num) : list num :=
  zip_with num_add (resize (length inputData) num_zero (_runningSum self))
           (delta_sum inputData (leaving_sample self inputData)).

Definition sumSqs_after (self : IncrementalVarianceFeature) (inputData : list num) : list num :=
  zip_with num_add (resize (length inputData) num_zero (_runningSumSq self))
           (delta_sumSq inputData (leaving_sample self inputData)).

(** The object a successful call leaves behind. *)
Definition state_after (self : IncrementalVarianceFeature) (inputData : list num)
    : IncrementalVarianceFeature :=
  {| _id := _id self;
     _inputFeatures := _inputFeatures self;
     _outputDimension := length inputData;
     _windowSize := _windowSize self;
     _samples := takeN (_windowSize self) (inputData :: _samples self);
     _runningSum := sums_after self inputData;
     _runningSumSq := sumSqs_after self inputData |}.

Lemma ComputeOutput_nonempty (self : IncrementalVarianceFeature) (inputData : list num) :
  inputData <> [] ->
  ComputeOutput self inputData =
    inr (zip_with (variance_of_sums (GetWindowSize self))
           (sums_after self inputData) (sumSqs_after self inputData),
         state_after self inputData).
Proof.
  intros Hne. unfold ComputeOutput.
  destruct (decide (length inputData = 0%nat)) as [Hz|Hz].
  { destruct inputData; [congruence | discriminate]. }
  cbn [GetWindowSize set_outputDimension UpdateRowSamples _windowSize _runningSum
       _runningSumSq _samples _outputDimension _id _inputFeatures].
  rewrite update_loop_closed_form by (rewrite ?length_resize; reflexivity).
  reflexivity.
Qed.

(** C3. Whenever the current output of the input feature is empty (a
    zero-width input), [ComputeOutput] throws the invalid-argument exception
    and returns no value. *)
Theorem ComputeOutput_zero_dimension_throws (self : IncrementalVarianceFeature) :
  ComputeOutput self [] = inl (Exception invalidArgument "Invalid input of size zero").
Proof. reflexivity. Qed.

Lemma length_sums_after (self : IncrementalVarianceFeature) (inputData : list num) :
  length (sums_after self inputData) = length inputData.
Proof.
  unfold sums_after, delta_sum, leaving_sample.
  rewrite !length_zip_with, !length_resize. lia.
Qed.

Lemma length_sumSqs_after (self : IncrementalVarianceFeature) (inputData : list num) :
  length (sumSqs_after self inputData) = length inputData.
Proof.
  unfold sumSqs_after, delta_sumSq, leaving_sample.
  rewrite !length_zip_with, !length_resize. lia.
Qed.

(** C4, as the code has it. Every call on a non-empty input succeeds
    whatever dimension was established before, and sets the output
    dimension to the dimension of the current input; the result has that
    many elements.  (The only error of [ComputeOutput] is the empty
    input.) *)
Theorem ComputeOutput_sets_outputDimension
    (self : IncrementalVarianceFeature) (inputData : list num) :
  inputData <> [] ->
  exists result self',
    ComputeOutput self inputData = inr (result, self') /\
    _outputDimension self' = length inputData /\
    length result = length inputData.
Proof.
  intros Hne. rewrite (ComputeOutput_nonempty self inputData Hne).
  eexists _, _. split; [reflexivity|]. split; [reflexivity|].
  rewrite length_zip_with, length_sums_after, length_sumSqs_after. lia.
Qed.

(** C9. [ComputeOutput] is not a read-only query.  A call on a non-empty
    input pushes the input into the window and adds the deltas of the
    entering and the leaving sample to the running sum and to the running
    sum of squares; a second call on the same input pushes it again and adds
    deltas again. *)
Theorem ComputeOutput_not_read_only
    (self : IncrementalVarianceFeature) (inputData : list num) :
  inputData <> [] ->
  exists result1 self1 result2 self2,
    ComputeOutput self inputData = inr (result1, self1) /\
    ComputeOutput self1 inputData = inr (result2, self2) /\
    _samples self1 = takeN (GetWindowSize self) (inputData :: _samples self) /\
    _samples self2 =
      takeN (GetWindowSize self)
        (inputData :: takeN (GetWindowSize self) (inputData :: _samples self)) /\
    _runningSum self1 =
      zip_with num_add (resize (length inputData) num_zero (_runningSum self))
        (delta_sum inputData (leaving_sample self inputData)) /\
    _runningSumSq self1 =
      zip_with num_add (resize (length inputData) num_zero (_runningSumSq self))
        (delta_sumSq inputData (leaving_sample self inputData)) /\
    _runningSum self2 =
      zip_with num_add (_runningSum self1)
        (delta_sum inputData (leaving_sample self1 inputData)) /\
    _runningSumSq self2 =
      zip_with num_add (_runningSumSq self1)
        (delta_sumSq inputData (leaving_sample self1 inputData)).
Proof.
  intros Hne.
  exists (zip_with (variance_of_sums (GetWindowSize self))
            (sums_after self inputData) (sumSqs_after self inputData)).
  exists (state_after self inputData).
  eexists _, (state_after (state_after self inputData) inputData).
  split; [apply ComputeOutput_nonempty; exact Hne|].
  split; [apply ComputeOutput_nonempty; exact Hne|].
  repeat split.
  - cbn [state_after _runningSum]. unfold sums_after at 1.
    cbn [state_after _runningSum].
    rewrite resize_all_alt by (symmetry; apply length_sums_after). reflexivity.
  - cbn [state_after _runningSumSq]. unfold sumSqs_after at 1.
    cbn [state_after _runningSumSq].
    rewrite resize_all_alt by (symmetry; apply length_sumSqs_after). reflexivity.
Qed.

End ComputeOutputFacts.

(** C4, as stated, fails: after a first call on a 1-dimensional input, a call
    on a 2-dimensional input is no error; it succeeds and changes the output
    dimension from 1 to 2. *)
Lemma ComputeOutput_outputDimension_changes :
  match ComputeOutput (new_IncrementalVarianceFeature "variance" 1 3) [1]%float with
  | inr (_, self1) =>
      _outputDimension self1 = 1%nat /\
      match ComputeOutput self1 [1; 2]%float with
      | inr (result2, self2) =>
          _outputDimension self2 = 2%nat /\ length result2 = 2%nat
      | inl _ => False
      end
  | inl _ => False
  end.
Proof. vm_compute. auto. Qed.

Lemma ComputeOutput_sets_outputDimension_witness :
  let self1 := state_after (new_IncrementalVarianceFeature "variance" 1 3) [1]%float in
  let inputData := [1; 2]%float in
  inputData <> [] /\
  exists result self',
    ComputeOutput self1 inputData = inr (result, self') /\
    _outputDimension self' = length inputData /\
    length result = length inputData.
Proof.
  split; [discriminate|].
  apply (ComputeOutput_sets_outputDimension
           (state_after (new_IncrementalVarianceFeature "variance" 1 3) [1]%float)
           [1; 2]%float).
  discriminate.
Defined.

Lemma ComputeOutput_not_read_only_witness :
  let self := new_IncrementalVarianceFeature "variance" 1 2 in
  let inputData := [1]%float in
  inputData <> [] /\
  exists result1 self1 result2 self2,
    ComputeOutput self inputData = inr (result1, self1) /\
    ComputeOutput self1 inputData = inr (result2, self2) /\
    _samples self1 = takeN (GetWindowSize self) (inputData :: _samples self) /\
    _samples self2 =
      takeN (GetWindowSize self)
        (inputData :: takeN (GetWindowSize self) (inputData :: _samples self)) /\
    _runningSum self1 =
      zip_with num_add (resize (length inputData) num_zero (_runningSum self))
        (delta_sum inputData (leaving_sample self inputData)) /\
    _runningSumSq self1 =
      zip_with num_add (resize (length inputData) num_zero (_runningSumSq self))
        (delta_sumSq inputData (leaving_sample self inputData)) /\
    _runningSum self2 =
      zip_with num_add (_runningSum self1)
        (delta_sum inputData (leaving_sample self1 inputData)) /\
    _runningSumSq self2 =
      zip_with num_add (_runningSumSq self1)
        (delta_sumSq inputData (leaving_sample self1 inputData)).
Proof.
  split; [discriminate|].
  apply (ComputeOutput_not_read_only (new_IncrementalVarianceFeature "variance" 1 2)
           [1]%float).
  discriminate.
Defined.

(** Two calls on the same input [1], window size 2, on [double]: the window
    holds the sample twice and the running sum is 2. *)
Example ComputeOutput_twice_on_same_input :
  match ComputeOutput (new_IncrementalVarianceFeature "variance" 1 2) [1]%float with
  | inr (_, self1) =>
      _samples self1 = [[1]]%float /\ _runningSum self1 = [1]%float /\
      match ComputeOutput self1 [1]%float with
      | inr (_, self2) =>
          _samples self2 = [[1]; [1]]%float /\ _runningSum self2 = [2]%float /\
          _runningSumSq self2 = [2]%float
      | inl _ => False
      end
  | inl _ => False
  end.
Proof. vm_compute. auto. Qed.

(* ------------------------------------------------------------------ *)
(** ** The windowed variance, recomputed from the window *)
(* ------------------------------------------------------------------ *)

Lemma takeN_take {A : Type} (k : N) (l : list A) : takeN k l = take (N.to_nat k) l.
Proof.
  revert k. induction l as [|x l IH]; intros k; simpl.
  - symmetry. apply take_nil.
  - destruct (N.eqb_spec k 0) as [->|Hk]; [reflexivity|].
    rewrite IH. replace (N.to_nat k) with (S (N.to_nat (N.pred k))) by lia.
    reflexivity.
Qed.

Lemma lookupN_lookup {A : Type} (l : list A) (k : N) : lookupN l k = l !! N.to_nat k.
Proof.
  revert k. induction l as [|x l IH]; intros k; simpl.
  - reflexivity.
  - destruct (N.eqb_spec k 0) as [->|Hk]; [reflexivity|].
    rewrite IH. replace (N.to_nat k) with (S (N.to_nat (N.pred k))) by lia.
    reflexivity.
Qed.

Lemma size_sub_1 (n : N) : 0 < n -> n < SIZE_MODULUS -> size_sub n 1 = n - 1.
Proof.
  intros Hpos Hlt. unfold size_sub, SIZE_MODULUS, SIZE_WIDTH in *.
  rewrite Z.mod_small by lia. lia.
Qed.

Section DirectVariance.
Context {num : Type} `{Numeric num}.

(** Element [j] of a vector, zero past its end. *)
Definition component (j : nat) (v : list num) : num := default num_zero (v !! j).

(** Dimension [j] of each sample of a window. *)
Definition column (j : nat) (window : list (list num)) : list num :=
  map (component j) window.

Definition sum_of (values : list num) : num := foldr num_add num_zero values.

Definition square (v : num) : num := (v * v)%num.

(** The population variance of a window of values recomputed from the
    values themselves, by the formula of the spec:
    [(sumSq - sum^2 / windowSize) / windowSize]. *)
Definition direct_variance (windowSize : N) (window : list num) : num :=
  let sum := sum_of window in
  let sumSq := sum_of (map square window) in
  ((sumSq - (sum * sum / of_size_t windowSize)) / of_size_t windowSize)%num.

Lemma component_zip_with (f : num -> num -> num) (a b : list num) (j : nat) :
  (j < length a)%nat -> (j < length b)%nat ->
  component j (zip_with f a b) = f (component j a) (component j b).
Proof.
  intros Ha Hb. unfold component. rewrite lookup_zip_with.
  destruct (lookup_lt_is_Some_2 a j Ha) as [x ->].
  destruct (lookup_lt_is_Some_2 b j Hb) as [y ->].
  reflexivity.
Qed.

Lemma component_resize (n j : nat) (v : list num) :
  (j < n)%nat -> component j (resize n num_zero v) = component j v.
Proof.
  intros Hj. unfold component.
  destruct (decide (j < length v)%nat) as [Hlt|Hge].
  - rewrite lookup_resize by lia. reflexivity.
  - rewrite lookup_resize_new by lia.
    rewrite (lookup_ge_None_2 v j) by lia. reflexivity.
Qed.

Lemma component_replicate (n j : nat) : component j (replicate n num_zero) = num_zero.
Proof.
  unfold component. destruct (decide (j < n)%nat).
  - rewrite lookup_replicate_2 by lia. reflexivity.
  - rewrite (lookup_ge_None_2 _ j) by (rewrite length_replicate; lia). reflexivity.
Qed.

End DirectVariance.

Section ExactVariance.
Context {num : Type} `{Numeric num}.
Variables (one : num) (opp : num -> num).
Hypothesis exact_arithmetic : ExactArithmetic num one opp.

Let num_ring_theory : ring_theory num_zero one num_add num_mul num_sub opp (@eq num) :=
  exact_arithmetic.

Add Ring num_ring : num_ring_theory.

Lemma sum_of_snoc (values : list num) (v : num) :
  sum_of (values ++ [v]) = (sum_of values + v)%num.
Proof.
  induction values as [|x values IH]; simpl.
  - unfold sum_of; simpl. ring.
  - unfold sum_of in *; simpl. rewrite IH. ring.
Qed.

Lemma sum_of_rev (values : list num) : sum_of (rev values) = sum_of values.
Proof.
  induction values as [|x values IH]; simpl; [reflexivity|].
  rewrite sum_of_snoc, IH. unfold sum_of; simpl. ring.
Qed.

Lemma direct_variance_rev (windowSize : N) (window : list num) :
  direct_variance windowSize (rev window) = direct_variance windowSize window.
Proof.
  unfold direct_variance. rewrite map_rev, !sum_of_rev. reflexivity.
Qed.

Variable windowSize : N.
Variable d : nat.
Hypothesis windowSize_pos : 0 < windowSize.
Hypothesis windowSize_fits : windowSize < SIZE_MODULUS.

Definition uniform (rows : list (list num)) : Prop :=
  Forall (fun row => length row = d) rows.

(** The invariant of the evaluator after it consumed the samples [history]
    (newest first): the window holds the last [windowSize] of them and, in
    every dimension, the running sums are the sums over the window. *)
Definition window_invariant (history : list (list num))
    (self : IncrementalVarianceFeature) : Prop :=
  _windowSize self = windowSize /\
  _samples self = takeN windowSize history /\
  (forall j, (j < d)%nat ->
     component j (_runningSum self) = sum_of (column j (takeN windowSize history))) /\
  (forall j, (j < d)%nat ->
     component j (_runningSumSq self) =
       sum_of (map square (column j (takeN windowSize history)))).

Lemma window_invariant_new (id : string) (inputFeature : FeaturePtr) :
  window_invariant [] (new_IncrementalVarianceFeature id inputFeature windowSize).
Proof. repeat split. Qed.

Lemma component_leaving (history : list (list num)) (self : IncrementalVarianceFeature)
    (x : list num) (j : nat) :
  window_invariant history self -> uniform history -> length x = d -> (j < d)%nat ->
  component j (leaving_sample self x) =
    match history !! (N.to_nat windowSize - 1)%nat with
    | Some row => component j row
    | None => num_zero
    end.
Proof.
  intros (HW & Hs & _ & _) Hu Hx Hj. unfold leaving_sample, GetDelayedSamples, GetWindowSize.
  cbn [set_outputDimension _samples _outputDimension _windowSize].
  rewrite HW, Hs, Hx, component_resize by exact Hj.
  rewrite size_sub_1, lookupN_lookup, takeN_take by assumption.
  rewrite lookup_take_lt by lia.
  replace (N.to_nat (windowSize - 1)) with (N.to_nat windowSize - 1)%nat by lia.
  destruct (history !! (N.to_nat windowSize - 1)%nat); simpl; [reflexivity|].
  apply component_replicate.
Qed.

Lemma length_leaving (self : IncrementalVarianceFeature) (x : list num) :
  length (leaving_sample self x) = length x.
Proof. unfold leaving_sample. apply length_resize. Qed.

(** The window after a push, against the window before it. *)
Lemma window_push (history : list (list num)) (x : list num) :
  takeN windowSize (x :: history) = x :: take (N.to_nat windowSize - 1) history.
Proof.
  rewrite takeN_take.
  replace (N.to_nat windowSize) with (S (N.to_nat windowSize - 1)) at 1 by lia.
  reflexivity.
Qed.

Lemma window_split (history : list (list num)) :
  takeN windowSize history =
    take (N.to_nat windowSize - 1) history
      ++ option_list (history !! (N.to_nat windowSize - 1)%nat).
Proof.
  rewrite takeN_take.
  replace (N.to_nat windowSize) with (S (N.to_nat windowSize - 1)) at 1 by lia.
  destruct (history !! (N.to_nat windowSize - 1)%nat) as [row|] eqn:Hrow; simpl.
  - apply take_S_r. exact Hrow.
  - apply lookup_ge_None_1 in Hrow.
    rewrite !take_ge by lia. rewrite app_nil_r. reflexivity.
Qed.

(** One call of [ComputeOutput] keeps the invariant. *)
Lemma window_invariant_step (history : list (list num)) (self : IncrementalVarianceFeature)
    (x : list num) :
  window_invariant history self -> uniform history -> length x = d ->
  window_invariant (x :: history) (state_after self x).
Proof.
  intros Hinv Hu Hx. pose proof Hinv as (HW & Hs & Hsum & Hsq).
  split; [exact HW|]. split.
  { cbn [state_after _samples]. rewrite HW, Hs, !takeN_take.
    replace (N.to_nat windowSize) with (S (N.to_nat windowSize - 1)) at 1 3 by lia.
    cbn [take]. rewrite take_take. f_equal. f_equal. lia. }
  split; intros j Hj.
  - cbn [state_after _runningSum]. unfold sums_after, delta_sum.
    rewrite !component_zip_with
      by (rewrite ?length_zip_with, ?length_resize, ?length_leaving; lia).
    rewrite component_resize by lia.
    rewrite (component_leaving history self x j Hinv Hu Hx Hj), (Hsum j Hj).
    rewrite window_push, (window_split history).
    unfold column. rewrite map_app. cbn [map].
    destruct (history !! (N.to_nat windowSize - 1)%nat) as [row|]; cbv [option_list option_rect]; cbn [map].
    + rewrite sum_of_snoc. unfold sum_of; simpl. ring.
    + rewrite app_nil_r. unfold sum_of; simpl. ring.
  - cbn [state_after _runningSumSq]. unfold sumSqs_after, delta_sumSq.
    rewrite !component_zip_with
      by (rewrite ?length_zip_with, ?length_resize, ?length_leaving; lia).
    rewrite component_resize by lia.
    rewrite (component_leaving history self x j Hinv Hu Hx Hj), (Hsq j Hj).
    rewrite window_push, (window_split history).
    unfold column. rewrite !map_app. cbn [map].
    destruct (history !! (N.to_nat windowSize - 1)%nat) as [row|]; cbv [option_list option_rect]; cbn [map].
    + rewrite sum_of_snoc. unfold sum_of, square; simpl. ring.
    + rewrite app_nil_r. unfold sum_of, square; simpl. ring.
Qed.

Lemma lookup_component (v : list num) (j : nat) :
  (j < length v)%nat -> v !! j = Some (component j v).
Proof.
  intros Hj. unfold component.
  destruct (lookup_lt_is_Some_2 v j Hj) as [x ->]. reflexivity.
Qed.

(** The result of a call, in one dimension, is the variance recomputed from
    the window the call leaves behind. *)
Lemma result_is_direct_variance (history : list (list num))
    (self : IncrementalVarianceFeature) (x : list num) (j : nat) :
  window_invariant history self -> uniform history -> length x = d -> (j < d)%nat ->
  zip_with (variance_of_sums (GetWindowSize self))
      (sums_after self x) (sumSqs_after self x) !! j =
    Some (direct_variance windowSize (column j (takeN windowSize (x :: history)))).
Proof.
  intros Hinv Hu Hx Hj.
  destruct (window_invariant_step history self x Hinv Hu Hx) as (_ & _ & Hsum & Hsq).
  specialize (Hsum j Hj). specialize (Hsq j Hj).
  cbn [state_after _runningSum _runningSumSq] in Hsum, Hsq.
  rewrite lookup_zip_with.
  rewrite (lookup_component (sums_after self x) j) by (rewrite length_sums_after; lia).
  rewrite (lookup_component (sumSqs_after self x) j) by (rewrite length_sumSqs_after; lia).
  cbn [mbind option_bind]. rewrite Hsum, Hsq.
  destruct Hinv as (HW & _). unfold GetWindowSize. rewrite HW. reflexivity.
Qed.

Lemma run_window (samples : list (list num)) :
  forall (self : IncrementalVarianceFeature) (history : list (list num)) (t j : nat),
    window_invariant history self -> uniform history -> uniform samples ->
    (t < length samples)%nat -> (j < d)%nat ->
    run self samples !! t ≫= (fun result => result !! j) =
      Some (direct_variance windowSize
              (column j (takeN windowSize (rev (take (S t) samples) ++ history)))).
Proof.
  induction samples as [|x rest IH]; intros self history t j Hinv Hu Hs Ht Hj.
  { simpl in Ht. lia. }
  apply Forall_cons in Hs as [Hx Hrest].
  assert (x <> []) as Hne by (intros ->; simpl in Hx; lia).
  cbn [run]. rewrite (ComputeOutput_nonempty self x Hne).
  destruct t as [|t].
  - cbn [lookup list_lookup mbind option_bind take rev app].
    apply result_is_direct_variance; assumption.
  - change ((?r :: ?l) !! S t) with (l !! t).
    rewrite (IH (state_after self x) (x :: history) t j).
    + cbn [take rev]. rewrite <- app_assoc. reflexivity.
    + apply window_invariant_step; assumption.
    + apply Forall_cons. split; assumption.
    + exact Hrest.
    + simpl in Ht. lia.
    + exact Hj.
Qed.

(** In exact arithmetic, the output at tick [t] (the first tick is 1), once
    [windowSize] samples were fed, is in every dimension the variance
    recomputed from the last [windowSize] samples of the stream. *)
Lemma run_is_direct_variance (id : string) (inputFeature : FeaturePtr)
    (samples : list (list num)) (t j : nat) :
  uniform samples -> (j < d)%nat ->
  (N.to_nat windowSize <= t)%nat -> (t <= length samples)%nat ->
  run (new_IncrementalVarianceFeature id inputFeature windowSize) samples !! (t - 1)%nat
      ≫= (fun result => result !! j) =
    Some (direct_variance windowSize
            (column j (take (N.to_nat windowSize)
                         (drop (t - N.to_nat windowSize) samples)))).
Proof.
  intros Hu Hj Hwt Htl.
  rewrite (run_window samples _ [] (t - 1) j (window_invariant_new id inputFeature))
    by (try apply Forall_nil_2; try assumption; lia).
  replace (S (t - 1)) with t by lia.
  rewrite app_nil_r, takeN_take, firstn_rev, length_take.
  replace (t `min` length samples - N.to_nat windowSize)%nat
    with (t - N.to_nat windowSize)%nat by lia.
  unfold column. rewrite map_rev, direct_variance_rev.
  rewrite take_drop_commute.
  replace (t - N.to_nat windowSize + N.to_nat windowSize)%nat with t by lia.
  reflexivity.
Qed.

End ExactVariance.

(** The stream of the spec's scenario, in [binary64] and in exact arithmetic. *)
Definition scenario_binary64 : list (list float) :=
  [[1]; [2]; [3]; [4]; [5]]%float.

Definition rational (z : Z) : Qc := Q2Qc (inject_Z z).

Definition scenario_exact : list (list Qc) :=
  map (fun z => [rational z]) [1; 2; 3; 4; 5]%Z.

Lemma exact_is_exact : ExactArithmetic Qc (Q2Qc 1) Qcopp.
Proof. exact Qcrt. Qed.

(** In [binary64] the scenario gives the double nearest to 2/3 at ticks 2
    to 5 (at tick 2 the window is padded with a zero sample). *)
Lemma scenario_binary64_outputs :
  run (new_IncrementalVarianceFeature "variance" 1 3) scenario_binary64 =
    [[(1 - 1 / 3) / 3]; [2 / 3]; [2 / 3]; [2 / 3]; [2 / 3]]%float.
Proof. vm_compute. reflexivity. Qed.

(** C2, as stated, fails on [double]: with [windowSize] 2 and the stream
    [2^53, 1, 2], the third call returns -1, while the variance recomputed
    from the last two samples [1, 2] is 0.25.  (The sample [2^53] is absorbed
    into the running sums with rounding, so subtracting it again leaves
    them wrong.) *)
Lemma ComputeOutput_binary64_differs_from_direct_variance :
  run (new_IncrementalVarianceFeature "variance" 1 2)
      [[9007199254740992]; [1]; [2]]%float !! 2%nat = Some [(-1)%float] /\
  direct_variance 2 (column 0 (take 2 (drop 1 [[9007199254740992]; [1]; [2]]%float)))
    = 0.25%float /\
  PrimFloat.eqb (-1) 0.25 = false.
Proof. vm_compute. repeat split. Qed.

(** C2, as the code has it.  Whenever the arithmetic on the samples is exact
    (the operations satisfy the laws of a commutative ring, as on the
    rationals), for every window size [0 < windowSize < 2^64], every stream
    of samples of one dimension [d] and every tick [t] from [windowSize] on,
    the output of the [t]-th call of [ComputeOutput] equals, in every
    dimension [j], the population variance
    [(sumSq - sum^2 / windowSize) / windowSize] recomputed from the last
    [windowSize] samples.  On [double] the equality holds for the stream
    [1, 2, 3, 4, 5] with dimension 1 and [windowSize] 3: the outputs at ticks
    3, 4 and 5 are each the double [2 / 3]. *)
Theorem ComputeOutput_is_window_variance :
  (forall (num : Type) (arithmetic : Numeric num) (one : num) (opp : num -> num),
     ExactArithmetic num one opp ->
     forall (windowSize : N) (d : nat) (id : string) (inputFeature : FeaturePtr)
            (samples : list (list num)) (t j : nat),
       0 < windowSize -> windowSize < SIZE_MODULUS ->
       Forall (fun row => length row = d) samples -> (j < d)%nat ->
       (N.to_nat windowSize <= t)%nat -> (t <= length samples)%nat ->
       run (new_IncrementalVarianceFeature id inputFeature windowSize) samples !! (t - 1)%nat
           ≫= (fun result => result !! j) =
         Some (direct_variance windowSize
                 (column j (take (N.to_nat windowSize)
                              (drop (t - N.to_nat windowSize) samples))))) /\
  drop 2 (run (new_IncrementalVarianceFeature "variance" 1 3) scenario_binary64) =
    [[2 / 3]; [2 / 3]; [2 / 3]]%float.
Proof.
  split.
  - intros num arithmetic one opp Hexact windowSize d id inputFeature samples t j
      Hpos Hfits Hu Hj Hwt Htl.
    exact (run_is_direct_variance one opp Hexact windowSize d Hpos Hfits
             id inputFeature samples t j Hu Hj Hwt Htl).
  - rewrite scenario_binary64_outputs. reflexivity.
Qed.

(** The scenario in exact arithmetic, tick 4: the window is [2, 3, 4]. *)
Lemma ComputeOutput_is_window_variance_witness :
  ExactArithmetic Qc (Q2Qc 1) Qcopp /\
  Forall (fun row => length row = 1%nat) scenario_exact /\
  run (new_IncrementalVarianceFeature "variance" 1 3) scenario_exact !! (4 - 1)%nat
      ≫= (fun result => result !! 0%nat) =
    Some (direct_variance 3
            (column 0 (take (N.to_nat 3) (drop (4 - N.to_nat 3) scenario_exact)))).
Proof.
  split; [exact exact_is_exact|].
  split; [repeat constructor|].
  apply (proj1 ComputeOutput_is_window_variance Qc exact (Q2Qc 1) Qcopp exact_is_exact
           3 1%nat "variance" 1 scenario_exact 4%nat 0%nat).
  - reflexivity.
  - reflexivity.
  - repeat constructor.
  - lia.
  - vm_compute. lia.
  - vm_compute. lia.
Defined.

(** The variance of [2, 3, 4] recomputed in exact arithmetic is 2/3. *)
Lemma scenario_exact_window_variance :
  direct_variance 3 (column 0 (take 3 (drop 1 scenario_exact))) = (rational 2 / rational 3)%Qc.
Proof. apply Qc_is_canon. vm_compute. reflexivity. Qed.

(* ------------------------------------------------------------------ *)
(** ** The factory: [Create] *)
(* ------------------------------------------------------------------ *)

(** The text before the id in the message of the unknown-input error. *)
Definition unknown_input_feature : string :=
  "Error deserializing feature description: unknown input feature ".

(** [msg] contains [id]. *)
Definition names (id msg : string) : bool :=
  match String.index 0 id msg with
  | Some _ => true
  | None => false
  end.

Definition digit_value (c : ascii) : option Z :=
  let n := Z.of_N (N_of_ascii c) in
  if ((48 <=? n) && (n <=? 57))%Z then Some (n - 48)%Z else None.

Fixpoint parse_digits (text : string) (acc : Z) : option Z :=
  match text with
  | EmptyString => Some acc
  | String c rest =>
      match digit_value c with
      | Some digit => parse_digits rest (10 * acc + digit)%Z
      | None => None
      end
  end.

(** Modelled from the spec: [ParseInt] (StringUtil.h is not among the
    sources): the text "is parsed as an unsigned integer, malformed text is a
    fatal deserialization error" (section 6).  Used where a theorem is
    evaluated on concrete parameters. *)
Definition ParseInt_decimal (text : string) : Result Z :=
  match text, parse_digits text 0 with
  | String _ _, Some z => inr z
  | _, _ =>
      inl (Exception badStringFormat
             ("Error deserializing feature description: malformed integer " ++ text))
  end.

Section CreateFacts.
Context {num : Type} `{Numeric num}.
Variable ParseInt : string -> Result Z.

Lemma subscript_absent (previousFeatures : gmap string FeaturePtr) (key : string) :
  previousFeatures !! key = None ->
  subscript previousFeatures key = (nullptr, <[key := nullptr]> previousFeatures).
Proof. intros Hk. unfold subscript. rewrite Hk. reflexivity. Qed.

Lemma subscript_present (previousFeatures : gmap string FeaturePtr) (key : string)
    (p : FeaturePtr) :
  previousFeatures !! key = Some p ->
  subscript previousFeatures key = (p, previousFeatures).
Proof. intros Hk. unfold subscript. rewrite Hk. reflexivity. Qed.

(** C6, as the code has it.  [Create] parses the window size before it tests
    the input feature.  On four parameters: if the fourth does not parse, the
    error of [ParseInt] is what [Create] throws, whether the input feature id
    is bound or not; if it parses and the id is unbound (or bound to
    [nullptr]), [Create] throws the deserialization error whose message ends
    with the id; if it parses and the id is bound to a feature, [Create]
    returns the feature made of the given id, that input feature and the
    parsed number converted to 64 bits unsigned. *)
Theorem Create_outcomes (params : list string) (previousFeatures : gmap string FeaturePtr) :
  length params = 4%nat ->
  (forall e, ParseInt (params !!! 3%nat) = inl e ->
     fst (Create (num := num) ParseInt params previousFeatures) = inl e) /\
  (forall parsed, ParseInt (params !!! 3%nat) = inr parsed ->
     (previousFeatures !! (params !!! 2%nat) = None \/
      previousFeatures !! (params !!! 2%nat) = Some nullptr) ->
     fst (Create (num := num) ParseInt params previousFeatures) =
       inl (Exception badStringFormat (unknown_input_feature ++ params !!! 2%nat))) /\
  (forall parsed inputFeature, ParseInt (params !!! 3%nat) = inr parsed ->
     previousFeatures !! (params !!! 2%nat) = Some inputFeature ->
     inputFeature <> nullptr ->
     Create (num := num) ParseInt params previousFeatures =
       (inr (new_IncrementalVarianceFeature (params !!! 0%nat) inputFeature
               (to_uint64 parsed)),
        previousFeatures)).
Proof.
  intros _. unfold Create. repeat split.
  - intros e He.
    destruct (subscript previousFeatures (params !!! 2%nat)) as [p m].
    rewrite He. reflexivity.
  - intros parsed Hp [Hk|Hk].
    + rewrite (subscript_absent _ _ Hk), Hp.
      destruct (decide (nullptr = nullptr)); [reflexivity|congruence].
    + rewrite (subscript_present _ _ _ Hk), Hp.
      destruct (decide (nullptr = nullptr)); [reflexivity|congruence].
  - intros parsed inputFeature Hp Hk Hne.
    rewrite (subscript_present _ _ _ Hk), Hp.
    destruct (decide (inputFeature = nullptr)); [congruence|reflexivity].
Qed.

(** C10. When the input feature id is not in the registry, [Create] throws
    and leaves the registry with a new entry that binds the id to
    [nullptr]: the lookup [previousFeatures[params[2]]] inserted it before
    the error was raised, so the registry the caller gets back is not the
    one it passed. *)
Theorem Create_inserts_null_entry (params : list string)
    (previousFeatures : gmap string FeaturePtr) :
  length params = 4%nat ->
  previousFeatures !! (params !!! 2%nat) = None ->
  throws (fst (Create (num := num) ParseInt params previousFeatures)) /\
  snd (Create (num := num) ParseInt params previousFeatures) =
    <[params !!! 2%nat := nullptr]> previousFeatures /\
  snd (Create (num := num) ParseInt params previousFeatures) !! (params !!! 2%nat) =
    Some nullptr /\
  snd (Create (num := num) ParseInt params previousFeatures) <> previousFeatures.
Proof.
  intros _ Hk.
  assert (<[params !!! 2%nat := nullptr]> previousFeatures <> previousFeatures) as Hchanged.
  { intros Heq. rewrite <- Heq, lookup_insert_eq in Hk. discriminate. }
  unfold Create. rewrite (subscript_absent _ _ Hk).
  destruct (ParseInt (params !!! 3%nat)) as [e|parsed]; cbn [fst snd throws].
  - repeat split; [apply lookup_insert_eq | exact Hchanged].
  - destruct (decide (nullptr = nullptr)); [|congruence].
    cbn [fst snd throws]. repeat split; [apply lookup_insert_eq | exact Hchanged].
Qed.

End CreateFacts.

(** C6, as stated, fails when both the id is unknown and the window size is
    malformed: the error is the one of [ParseInt], which does not name the
    missing id. *)
Lemma Create_unknown_id_and_malformed_size :
  (∅ : gmap string FeaturePtr) !! "missing" = None /\
  fst (Create (num := float) ParseInt_decimal
         ["variance"; "IncrementalVariance"; "missing"; "eight"] ∅) =
    inl (Exception badStringFormat
           "Error deserializing feature description: malformed integer eight") /\
  names "missing" "Error deserializing feature description: malformed integer eight" = false.
Proof. vm_compute. repeat split. Qed.

Lemma Create_outcomes_witness :
  let params := ["variance"; "IncrementalVariance"; "input"; "8"] in
  let previousFeatures : gmap string FeaturePtr := {["input" := 7]} in
  length params = 4%nat /\
  ParseInt_decimal (params !!! 3%nat) = inr 8%Z /\
  previousFeatures !! (params !!! 2%nat) = Some 7 /\
  7 <> nullptr /\
  Create (num := float) ParseInt_decimal params previousFeatures =
    (inr (new_IncrementalVarianceFeature "variance" 7 8), previousFeatures).
Proof.
  split; [reflexivity|]. split; [reflexivity|]. split; [reflexivity|].
  split; [discriminate|].
  apply (proj2 (proj2 (Create_outcomes (num := float) ParseInt_decimal
                  ["variance"; "IncrementalVariance"; "input"; "8"]
                  {["input" := 7]} eq_refl)) 8%Z 7).
  - reflexivity.
  - reflexivity.
  - discriminate.
Defined.

Lemma Create_inserts_null_entry_witness :
  let params := ["variance"; "IncrementalVariance"; "missing"; "8"] in
  let previousFeatures : gmap string FeaturePtr := {["input" := 7]} in
  length params = 4%nat /\
  previousFeatures !! (params !!! 2%nat) = None /\
  throws (fst (Create (num := float) ParseInt_decimal params previousFeatures)) /\
  snd (Create (num := float) ParseInt_decimal params previousFeatures) =
    <[params !!! 2%nat := nullptr]> previousFeatures /\
  snd (Create (num := float) ParseInt_decimal params previousFeatures) !! (params !!! 2%nat) =
    Some nullptr /\
  snd (Create (num := float) ParseInt_decimal params previousFeatures) <> previousFeatures.
Proof.
  split; [reflexivity|]. split; [reflexivity|].
  apply (Create_inserts_null_entry (num := float) ParseInt_decimal
           ["variance"; "IncrementalVariance"; "missing"; "8"] {["input" := 7]}).
  - reflexivity.
  - reflexivity.
Defined.

(** The message of the unknown-input error names the id. *)
Example Create_unknown_id_message :
  fst (Create (num := float) ParseInt_decimal
         ["variance"; "IncrementalVariance"; "missing"; "8"] ∅) =
    inl (Exception badStringFormat
           "Error deserializing feature description: unknown input feature missing") /\
  names "missing" "Error deserializing feature description: unknown input feature missing"
    = true.
Proof. vm_compute. repeat split. Qed.

(* ------------------------------------------------------------------ *)
(** ** The lowering: [AddToModel] *)
(* ------------------------------------------------------------------ *)

Section Lowering.
Context {num : Type} `{Numeric num}.

(** The layers [AddToModel] appends to a model of [base] layers, for the
    input at [inputCoordinates]: layer [base + i] is the [i]-th of the list. *)
Definition lowered (base : nat) (windowSize : N) (inputCoordinates : CoordinateList)
    : list (Layer num) :=
  let d := length inputCoordinates in
  let output i := BuildCoordinateList (base + i) d in
  let divisorVector := RepeatCoordinates (BuildCoordinateList base 1) d in
  let bufferOutput :=
    BuildCoordinateList (base + 1) (N.to_nat (size_add windowSize 1) * d) in
  let oldestSample := take d (drop (N.to_nat windowSize * d) bufferOutput) in
  [ ConstantLayer [of_size_t windowSize];
    ShiftRegisterLayer inputCoordinates (size_add windowSize 1);
    BinaryOperationLayer inputCoordinates oldestSample subtract;
    AccumulatorLayer (output 2%nat);
    BinaryOperationLayer (output 3%nat) (output 3%nat) multiply;
    BinaryOperationLayer (output 4%nat) divisorVector divide;
    BinaryOperationLayer inputCoordinates inputCoordinates multiply;
    BinaryOperationLayer oldestSample oldestSample multiply;
    BinaryOperationLayer (output 6%nat) (output 7%nat) subtract;
    AccumulatorLayer (output 8%nat);
    BinaryOperationLayer (output 9%nat) (output 5%nat) subtract;
    BinaryOperationLayer (output 10%nat) divisorVector divide ].

Lemma size_add_1 (n : N) : n < SIZE_MODULUS - 1 -> size_add n 1 = n + 1.
Proof.
  unfold size_add, SIZE_MODULUS, SIZE_WIDTH. intros Hn.
  apply N.mod_small. lia.
Qed.

Lemma length_oldestSample (index : nat) (windowSize : N) (d : nat) :
  windowSize < SIZE_MODULUS - 1 ->
  length (take d (drop (N.to_nat windowSize * d)
            (BuildCoordinateList index (N.to_nat (size_add windowSize 1) * d)))) = d.
Proof.
  intros Hw. rewrite length_take, length_drop, length_BuildCoordinateList.
  rewrite size_add_1 by exact Hw. nia.
Qed.

Ltac valid_inputs :=
  cbn [layer_inputs forallb]; rewrite ?andb_true_r; rewrite ?andb_true_iff;
  repeat split;
  first
    [ reflexivity
    | apply valid_coordinates_app; assumption
    | apply valid_coordinates_slice;
      eapply valid_new_layer; [reflexivity | cbn [OutputSize]; lia]
    | apply valid_RepeatCoordinates;
      eapply valid_first_new_layer; [reflexivity | cbn [OutputSize length]; lia]
    | eapply valid_new_layer;
      [ reflexivity
      | cbn [OutputSize]; rewrite ?length_oldestSample by assumption;
        rewrite ?length_BuildCoordinateList; lia ] ].

Ltac emplace :=
  rewrite bind_EmplaceLayer;
  [ rewrite <- ?app_assoc; cbn [app]; rewrite ?length_app; cbn [length OutputSize];
    rewrite ?length_oldestSample by assumption;
    rewrite ?length_BuildCoordinateList
  | rewrite <- ?app_assoc; cbn [app]; valid_inputs
  | cbn [widths_match];
    first
      [ reflexivity
      | apply bool_decide_eq_true_2;
        rewrite ?length_oldestSample by assumption;
        rewrite ?length_RepeatCoordinates, ?length_BuildCoordinateList;
        lia ] ].

(** When the input feature was lowered before, at coordinates of the model,
    [AddToModel] appends the twelve layers of [lowered] and returns the
    coordinates of the last one. *)
Lemma AddToModel_lowers (self : IncrementalVarianceFeature)
    (featureOutputs : gmap FeaturePtr CoordinateList) (model : Model num)
    (inputCoordinates : CoordinateList) :
  featureOutputs !! (_inputFeatures self !!! 0%nat) = Some inputCoordinates ->
  valid_coordinates model inputCoordinates = true ->
  GetWindowSize self < SIZE_MODULUS - 1 ->
  AddToModel self featureOutputs model =
    (inr (BuildCoordinateList (length model + 11) (length inputCoordinates)),
     model ++ lowered (length model) (GetWindowSize self) inputCoordinates).
Proof.
  intros Hin Hvalid Hw. unfold AddToModel. rewrite Hin.
  emplace.
  emplace.
  rewrite (bind_GetLastLayer _ _ inputCoordinates (size_add (GetWindowSize self) 1))
    by (rewrite last_app; reflexivity).
  unfold GetDelayedOutputCoordinates. cbn [fst].
  emplace.
  emplace.
  emplace.
  emplace.
  emplace.
  emplace.
  emplace.
  emplace.
  emplace.
  emplace.
  reflexivity.
Qed.

Ltac appends_only :=
  repeat first
    [ apply appends_only_ret
    | apply appends_only_EmplaceLayer
    | apply appends_only_GetLastLayer
    | apply appends_only_bind; [|intros ?] ].

(** C5. If the input feature has no entry in [featureOutputs], [AddToModel]
    throws the illegal-state exception and leaves the model as it was.  If
    the entry is present, the lowering proceeds: the layer of the constant
    is appended, and layers are only appended after it; when moreover the
    entry's coordinates belong to the model (the input was lowered into it)
    and [windowSize + 1] fits [size_t], the lowering appends its twelve
    layers and returns the coordinates of the variance. *)
Theorem AddToModel_needs_lowered_input (self : IncrementalVarianceFeature)
    (featureOutputs : gmap FeaturePtr CoordinateList) (model : Model num) :
  (featureOutputs !! (_inputFeatures self !!! 0%nat) = None ->
   AddToModel self featureOutputs model =
     (inl (Exception illegalState "Couldn't find input feature"), model)) /\
  (forall inputCoordinates,
     featureOutputs !! (_inputFeatures self !!! 0%nat) = Some inputCoordinates ->
     exists extension,
       snd (AddToModel self featureOutputs model) =
         model ++ ConstantLayer [of_size_t (GetWindowSize self)] :: extension) /\
  (forall inputCoordinates,
     featureOutputs !! (_inputFeatures self !!! 0%nat) = Some inputCoordinates ->
     valid_coordinates model inputCoordinates = true ->
     GetWindowSize self < SIZE_MODULUS - 1 ->
     AddToModel self featureOutputs model =
       (inr (BuildCoordinateList (length model + 11) (length inputCoordinates)),
        model ++ lowered (length model) (GetWindowSize self) inputCoordinates) /\
     length (lowered (length model) (GetWindowSize self) inputCoordinates) = 12%nat).
Proof.
  split; [|split].
  - intros Hnone. unfold AddToModel. rewrite Hnone. reflexivity.
  - intros inputCoordinates Hin. unfold AddToModel. rewrite Hin.
    rewrite bind_EmplaceLayer by reflexivity.
    match goal with
    | |- context [snd (?k ?coordinates (model ++ [?layer]))] =>
        assert (appends_only (k coordinates)) as Hk by appends_only;
        destruct (Hk (model ++ [layer])) as [extension Hext]
    end.
    exists extension. rewrite Hext, <- app_assoc. reflexivity.
  - intros inputCoordinates Hin Hvalid Hw.
    split; [apply AddToModel_lowers; assumption | reflexivity].
Qed.

(** The run-time state of the lowered layers: the contents of the shift
    register (layer 1) and the totals of the two accumulators (layers 3
    and 9). *)
Definition shift_state (states : list (LayerState num)) : LayerState num :=
  hd [] (tl states).

Definition sum_state (states : list (LayerState num)) : list num :=
  hd [] (hd [] (tl (tl (tl states)))).

Definition sumSq_state (states : list (LayerState num)) : list num :=
  hd [] (hd [] (tl (tl (tl (tl (tl (tl (tl (tl (tl states)))))))))).

Section OneTick.
Variable windowSize : N.
Variable u : list num.
Variable contents : LayerState num.
Variables sums sumSqs : list num.

Definition graph_contents : LayerState num := takeN (size_add windowSize 1) (u :: contents).
Definition graph_oldest : list num :=
  stored_sample (length u) graph_contents (N.to_nat windowSize).
Definition graph_divisor : list num := replicate (length u) (of_size_t windowSize).
Definition graph_diff : list num := zip_with (apply_operation subtract) u graph_oldest.
Definition graph_sum : list num :=
  zip_with num_add (resize (length u) num_zero sums) graph_diff.
Definition graph_squaredSum : list num :=
  zip_with (apply_operation multiply) graph_sum graph_sum.
Definition graph_normSquaredSum : list num :=
  zip_with (apply_operation divide) graph_squaredSum graph_divisor.
Definition graph_newValueSquared : list num := zip_with (apply_operation multiply) u u.
Definition graph_oldValueSquared : list num :=
  zip_with (apply_operation multiply) graph_oldest graph_oldest.
Definition graph_diffSquared : list num :=
  zip_with (apply_operation subtract) graph_newValueSquared graph_oldValueSquared.
Definition graph_sumSq : list num :=
  zip_with num_add (resize (length u) num_zero sumSqs) graph_diffSquared.
Definition graph_varianceTimesN : list num :=
  zip_with (apply_operation subtract) graph_sumSq graph_normSquaredSum.
Definition graph_variance : list num :=
  zip_with (apply_operation divide) graph_varianceTimesN graph_divisor.

(** What the twelve layers output in one tick, and the state they keep. *)
Definition lowered_outputs : list (list num) :=
  [ [of_size_t windowSize];
    shift_register_output (length u) (size_add windowSize 1) graph_contents;
    graph_diff; graph_sum; graph_squaredSum; graph_normSquaredSum;
    graph_newValueSquared; graph_oldValueSquared; graph_diffSquared; graph_sumSq;
    graph_varianceTimesN; graph_variance ].

Definition lowered_states : list (LayerState num) :=
  [ []; graph_contents; []; [graph_sum]; []; []; []; []; []; [graph_sumSq]; []; [] ].

Hypothesis contents_uniform : Forall (fun row => length row = length u) contents.

Lemma graph_contents_uniform : Forall (fun row => length row = length u) graph_contents.
Proof.
  unfold graph_contents. rewrite takeN_take. apply Forall_take.
  apply Forall_cons. split; [reflexivity | exact contents_uniform].
Qed.

Lemma length_graph_oldest : length graph_oldest = length u.
Proof. apply length_stored_sample, graph_contents_uniform. Qed.

Lemma length_graph_divisor : length graph_divisor = length u.
Proof. apply length_replicate. Qed.

Lemma length_graph_diff : length graph_diff = length u.
Proof. unfold graph_diff. rewrite length_zip_with, length_graph_oldest. lia. Qed.

Lemma length_graph_sum : length graph_sum = length u.
Proof. unfold graph_sum. rewrite length_zip_with, length_resize, length_graph_diff. lia. Qed.

Lemma length_graph_squaredSum : length graph_squaredSum = length u.
Proof. unfold graph_squaredSum. rewrite length_zip_with, length_graph_sum. lia. Qed.

Lemma length_graph_normSquaredSum : length graph_normSquaredSum = length u.
Proof.
  unfold graph_normSquaredSum.
  rewrite length_zip_with, length_graph_squaredSum, length_graph_divisor. lia.
Qed.

Lemma length_graph_newValueSquared : length graph_newValueSquared = length u.
Proof. unfold graph_newValueSquared. rewrite length_zip_with. lia. Qed.

Lemma length_graph_oldValueSquared : length graph_oldValueSquared = length u.
Proof. unfold graph_oldValueSquared. rewrite length_zip_with, length_graph_oldest. lia. Qed.

Lemma length_graph_diffSquared : length graph_diffSquared = length u.
Proof.
  unfold graph_diffSquared.
  rewrite length_zip_with, length_graph_newValueSquared, length_graph_oldValueSquared. lia.
Qed.

Lemma length_graph_sumSq : length graph_sumSq = length u.
Proof.
  unfold graph_sumSq. rewrite length_zip_with, length_resize, length_graph_diffSquared. lia.
Qed.

Lemma length_graph_varianceTimesN : length graph_varianceTimesN = length u.
Proof.
  unfold graph_varianceTimesN.
  rewrite length_zip_with, length_graph_sumSq, length_graph_normSquaredSum. lia.
Qed.

End OneTick.

Ltac read_layer k out length_lemma :=
  rewrite (reads_layer _ (length _ + k) _ out)
    by first [ apply lookup_new_output; reflexivity | apply length_lemma; assumption ].

(** One tick of the twelve layers, on the outputs of the layers before
    them. *)
Lemma compute_lowered (sample : list num) (windowSize : N) (inputCoordinates : CoordinateList)
    (outputs : list (list num)) (states : list (LayerState num)) :
  Forall (fun c => (layerIndex c < length outputs)%nat) inputCoordinates ->
  windowSize < SIZE_MODULUS - 1 ->
  Forall (fun row => length row = length inputCoordinates) (shift_state states) ->
  compute_layers sample (lowered (length outputs) windowSize inputCoordinates) states outputs =
    (outputs ++ lowered_outputs windowSize (reads outputs inputCoordinates)
                  (shift_state states) (sum_state states) (sumSq_state states),
     lowered_states windowSize (reads outputs inputCoordinates)
       (shift_state states) (sum_state states) (sumSq_state states)).
Proof.
  intros Hin Hw Hu. unfold lowered, lowered_outputs, lowered_states. cbv zeta.
  rewrite <- (length_reads outputs inputCoordinates) in Hu |- *.
  set (u := reads outputs inputCoordinates) in *.
  set (C := shift_state states) in *.
  set (T1 := sum_state states). set (T2 := sumSq_state states).
  assert (Forall (fun row => length row = length u) (graph_contents windowSize u C))
    as HC by (apply graph_contents_uniform; exact Hu).
  assert (N.to_nat windowSize < N.to_nat (size_add windowSize 1))%nat
    as Hdepth by (rewrite size_add_1 by exact Hw; lia).
  (* 0: the constant *)
  eapply compute_layers_step; [reflexivity|].
  (* 1: the shift register *)
  eapply (compute_layers_step _ _ _ _ _
            (shift_register_output (length u) (size_add windowSize 1)
               (graph_contents windowSize u C))).
  { cbn [compute_layer hd tl]. rewrite (reads_app outputs) by exact Hin.
    fold u. rewrite <- (length_reads outputs inputCoordinates). reflexivity. }
  assert (forall later,
            (outputs ++ [of_size_t windowSize]
               :: shift_register_output (length u) (size_add windowSize 1)
                    (graph_contents windowSize u C) :: later) !! (length outputs + 1)%nat =
              Some (shift_register_output (length u) (size_add windowSize 1)
                      (graph_contents windowSize u C)))
    as Hshift by (intros later; apply lookup_new_output; reflexivity).
  assert (forall later,
            (outputs ++ [of_size_t windowSize] :: later) !! length outputs =
              Some [of_size_t windowSize])
    as Hconst.
  { intros later. rewrite lookup_app_r by lia. rewrite Nat.sub_diag. reflexivity. }
  (* 2: diff *)
  eapply (compute_layers_step _ _ _ _ _ (graph_diff windowSize u C)).
  { cbn [compute_layer hd tl]. rewrite <- ?app_assoc. cbn [app].
    rewrite (reads_app outputs) by exact Hin. fold u.
    rewrite (reads_delayed _ _ _ _ _ _ (Hshift _) HC Hdepth). reflexivity. }
  rewrite <- ?app_assoc. cbn [app].
  (* 3: runningSum *)
  eapply (compute_layers_step _ _ _ _ _ (graph_sum windowSize u C T1)).
  { cbn [compute_layer hd tl]. rewrite length_BuildCoordinateList.
    read_layer 2%nat (graph_diff windowSize u C) length_graph_diff. reflexivity. }
  rewrite <- ?app_assoc. cbn [app].
  (* 4: squaredSum *)
  eapply (compute_layers_step _ _ _ _ _ (graph_squaredSum windowSize u C T1)).
  { cbn [compute_layer hd tl].
    read_layer 3%nat (graph_sum windowSize u C T1) length_graph_sum. reflexivity. }
  rewrite <- ?app_assoc. cbn [app].
  (* 5: normSquaredSum *)
  eapply (compute_layers_step _ _ _ _ _ (graph_normSquaredSum windowSize u C T1)).
  { cbn [compute_layer hd tl].
    read_layer 4%nat (graph_squaredSum windowSize u C T1) length_graph_squaredSum.
    rewrite (reads_broadcast _ _ _ _ (Hconst _)). reflexivity. }
  rewrite <- ?app_assoc. cbn [app].
  (* 6: newValueSquared *)
  eapply (compute_layers_step _ _ _ _ _ (graph_newValueSquared u)).
  { cbn [compute_layer hd tl]. rewrite (reads_app outputs) by exact Hin. reflexivity. }
  rewrite <- ?app_assoc. cbn [app].
  (* 7: oldValueSquared *)
  eapply (compute_layers_step _ _ _ _ _ (graph_oldValueSquared windowSize u C)).
  { cbn [compute_layer hd tl].
    rewrite (reads_delayed _ _ _ _ _ _ (Hshift _) HC Hdepth). reflexivity. }
  rewrite <- ?app_assoc. cbn [app].
  (* 8: diffSquared *)
  eapply (compute_layers_step _ _ _ _ _ (graph_diffSquared windowSize u C)).
  { cbn [compute_layer hd tl].
    read_layer 6%nat (graph_newValueSquared u) length_graph_newValueSquared.
    read_layer 7%nat (graph_oldValueSquared windowSize u C) length_graph_oldValueSquared.
    reflexivity. }
  rewrite <- ?app_assoc. cbn [app].
  (* 9: runningSquaredSum *)
  eapply (compute_layers_step _ _ _ _ _ (graph_sumSq windowSize u C T2)).
  { cbn [compute_layer hd tl]. rewrite length_BuildCoordinateList.
    read_layer 8%nat (graph_diffSquared windowSize u C) length_graph_diffSquared.
    reflexivity. }
  rewrite <- ?app_assoc. cbn [app].
  (* 10: varianceTimesN *)
  eapply (compute_layers_step _ _ _ _ _ (graph_varianceTimesN windowSize u C T1 T2)).
  { cbn [compute_layer hd tl].
    read_layer 9%nat (graph_sumSq windowSize u C T2) length_graph_sumSq.
    read_layer 5%nat (graph_normSquaredSum windowSize u C T1) length_graph_normSquaredSum.
    reflexivity. }
  rewrite <- ?app_assoc. cbn [app].
  (* 11: variance *)
  eapply (compute_layers_step _ _ _ _ _ (graph_variance windowSize u C T1 T2)).
  { cbn [compute_layer hd tl].
    read_layer 10%nat (graph_varianceTimesN windowSize u C T1 T2) length_graph_varianceTimesN.
    rewrite (reads_broadcast _ _ _ _ (Hconst _)). reflexivity. }
  rewrite <- ?app_assoc. cbn [app].
  reflexivity.
Qed.

(** ** The lowered graph against the interpreted evaluator *)

(** The last three layers compute the formula of [ComputeOutput]. *)
Lemma variance_layers (c : num) (windowSize : N) :
  c = of_size_t windowSize ->
  forall (n : nat) (a b : list num), length a = n -> length b = n ->
    zip_with (apply_operation divide)
      (zip_with (apply_operation subtract) b
         (zip_with (apply_operation divide)
            (zip_with (apply_operation multiply) a a) (replicate n c)))
      (replicate n c) =
    zip_with (variance_of_sums windowSize) a b.
Proof.
  intros ->. induction n as [|n IH]; intros [|x a] [|y b] Ha Hb; try discriminate.
  - reflexivity.
  - cbn [zip_with replicate]. rewrite IH by (simpl in *; lia). reflexivity.
Qed.

(** The evaluator and the run-time state of the lowered layers hold the same
    window and the same running sums. *)
Definition refines (windowSize : N) (d : nat) (self : IncrementalVarianceFeature)
    (states : list (LayerState num)) : Prop :=
  _windowSize self = windowSize /\
  _samples self = takeN windowSize (shift_state states) /\
  Forall (fun row => length row = d) (shift_state states) /\
  _runningSum self = sum_state states /\
  _runningSumSq self = sumSq_state states.

Lemma refines_new (windowSize : N) (d : nat) (id : string) (inputFeature : FeaturePtr) :
  refines windowSize d (new_IncrementalVarianceFeature id inputFeature windowSize) [].
Proof. repeat split. apply Forall_nil_2. Qed.

(** The sample [ComputeOutput] subtracts is the one the graph reads at
    delay [windowSize]. *)
Lemma leaving_is_oldest (windowSize : N) (self : IncrementalVarianceFeature)
    (states : list (LayerState num)) (u : list num) :
  0 < windowSize -> windowSize < SIZE_MODULUS - 1 ->
  refines windowSize (length u) self states ->
  leaving_sample self u = graph_oldest windowSize u (shift_state states).
Proof.
  intros Hpos Hw (HW & Hs & Hu & _ & _).
  unfold leaving_sample, GetDelayedSamples, GetWindowSize, graph_oldest, graph_contents.
  cbn [set_outputDimension _samples _outputDimension _windowSize].
  rewrite HW, Hs.
  rewrite size_sub_1 by (unfold SIZE_MODULUS, SIZE_WIDTH in *; lia).
  rewrite size_add_1 by exact Hw.
  rewrite lookupN_lookup, !takeN_take.
  rewrite lookup_take_lt by lia.
  unfold stored_sample. rewrite lookup_take_lt by lia.
  replace (N.to_nat windowSize) with (S (N.to_nat (windowSize - 1))) by lia.
  cbn [lookup list_lookup].
  fold (stored_sample (length u) (shift_state states) (N.to_nat (windowSize - 1))).
  apply resize_all_alt. symmetry. apply length_stored_sample, Hu.
Qed.

(** One tick: the call of [ComputeOutput] returns what the variance layer
    outputs, and the two states stay related. *)
Lemma tick_refines (windowSize : N) (self : IncrementalVarianceFeature)
    (states : list (LayerState num)) (u : list num) :
  0 < windowSize -> windowSize < SIZE_MODULUS - 1 -> u <> [] ->
  refines windowSize (length u) self states ->
  exists self',
    ComputeOutput self u =
      inr (graph_variance windowSize u (shift_state states)
             (sum_state states) (sumSq_state states), self') /\
    refines windowSize (length u) self'
      (lowered_states windowSize u (shift_state states)
         (sum_state states) (sumSq_state states)).
Proof.
  intros Hpos Hw Hne Href.
  pose proof (leaving_is_oldest windowSize self states u Hpos Hw Href) as Hold.
  destruct Href as (HW & Hs & Hu & Hsum & Hsq).
  assert (sums_after self u =
            graph_sum windowSize u (shift_state states) (sum_state states)) as Hsums.
  { unfold sums_after. rewrite Hold, Hsum. reflexivity. }
  assert (sumSqs_after self u =
            graph_sumSq windowSize u (shift_state states) (sumSq_state states)) as HsumSqs.
  { unfold sumSqs_after. rewrite Hold, Hsq. reflexivity. }
  exists (state_after self u). split.
  - rewrite (ComputeOutput_nonempty self u Hne). f_equal. f_equal.
    unfold GetWindowSize. rewrite HW, Hsums, HsumSqs.
    symmetry. unfold graph_variance, graph_varianceTimesN, graph_normSquaredSum,
      graph_squaredSum, graph_divisor.
    apply variance_layers; [reflexivity | |].
    + apply length_graph_sum, Hu.
    + apply length_graph_sumSq, Hu.
  - unfold refines, lowered_states, shift_state, sum_state, sumSq_state.
    cbn [hd tl state_after _windowSize _samples _runningSum _runningSumSq].
    split; [exact HW|]. split.
    { rewrite HW, Hs. unfold graph_contents. rewrite size_add_1 by exact Hw.
      rewrite !takeN_take.
      replace (N.to_nat windowSize) with (S (N.to_nat (windowSize - 1))) by lia.
      replace (N.to_nat (windowSize + 1)) with (S (S (N.to_nat (windowSize - 1)))) by lia.
      cbn [take]. rewrite !take_take. reflexivity. }
    split; [apply graph_contents_uniform, Hu|].
    split; assumption.
Qed.

Lemma simulate_refines (model : Model num) (windowSize : N)
    (inputCoordinates : CoordinateList) :
  valid_coordinates model inputCoordinates = true -> inputCoordinates <> [] ->
  0 < windowSize -> windowSize < SIZE_MODULUS - 1 ->
  forall (samples : list (list num)) (states : list (LayerState num))
         (self : IncrementalVarianceFeature),
    refines windowSize (length inputCoordinates) self (drop (length model) states) ->
    simulate (model ++ lowered (length model) windowSize inputCoordinates) states samples
        (BuildCoordinateList (length model + 11) (length inputCoordinates)) =
      run self (simulate model (take (length model) states) samples inputCoordinates).
Proof.
  intros Hvalid Hne Hpos Hw. induction samples as [|sample rest IH]; intros states self Href.
  { reflexivity. }
  cbn [simulate]. unfold Compute.
  rewrite compute_layers_app, compute_layers_take. cbv zeta.
  destruct (compute_layers_lengths sample model states []) as [Ho1 Hs1].
  destruct (compute_layers sample model states []) as [o1 s1].
  cbn [fst snd length Nat.add] in *.
  replace (lowered (length model) windowSize inputCoordinates)
    with (lowered (length o1) windowSize inputCoordinates) by (rewrite Ho1; reflexivity).
  assert (Forall (fun c => (layerIndex c < length o1)%nat) inputCoordinates) as Hin.
  { rewrite Ho1. apply valid_coordinates_lt, Hvalid. }
  set (u := reads o1 inputCoordinates).
  assert (length u = length inputCoordinates) as Hlen by apply length_reads.
  assert (u <> []) as Hu.
  { intros Hnil. rewrite Hnil in Hlen. destruct inputCoordinates; [congruence|discriminate]. }
  rewrite <- Hlen in Href.
  pose proof Href as (_ & _ & Huniform & _ & _).
  rewrite compute_lowered; [ | exact Hin | exact Hw | rewrite <- Hlen; exact Huniform ].
  fold u.
  destruct (tick_refines windowSize self (drop (length model) states) u Hpos Hw Hu Href)
    as (self' & Hcall & Href').
  cbn [run]. rewrite Hcall.
  rewrite (reads_layer _ (length model + 11) _
             (graph_variance windowSize u (shift_state (drop (length model) states))
                (sum_state (drop (length model) states))
                (sumSq_state (drop (length model) states))));
    [ | rewrite <- Ho1; apply lookup_new_output; reflexivity | ].
  2:{ rewrite <- Hlen. unfold graph_variance.
      rewrite length_zip_with, length_graph_varianceTimesN, length_graph_divisor
        by exact Huniform. lia. }
  f_equal.
  replace (lowered (length o1) windowSize inputCoordinates)
    with (lowered (length model) windowSize inputCoordinates) by (rewrite Ho1; reflexivity).
  rewrite (IH _ self').
  - rewrite take_app_length' by (symmetry; exact Hs1). reflexivity.
  - rewrite drop_app_length' by (symmetry; exact Hs1). rewrite <- Hlen. exact Href'.
Qed.

(** C1. Let the input feature be lowered at [inputCoordinates] of a model.
    For a window size [0 < windowSize < 2^64 - 1] and a non-empty input,
    [AddToModel] appends the layers of [lowered] (the constant, the shift
    register of depth [windowSize + 1], the subtractions, the two
    accumulators, the multiplications and the divisions, as wired), and over
    every sequence of samples the values the simulated model shows at the
    returned coordinates are, tick by tick and dimension by dimension, the
    outputs of successive calls of [ComputeOutput] fed with the values the
    model shows at the input feature's coordinates; no call throws.  This
    holds for every arithmetic, in particular for [double]. *)
Theorem AddToModel_refines_ComputeOutput (id : string) (inputFeature : FeaturePtr)
    (windowSize : N) (featureOutputs : gmap FeaturePtr CoordinateList)
    (model : Model num) (inputCoordinates : CoordinateList) (samples : list (list num)) :
  featureOutputs !! inputFeature = Some inputCoordinates ->
  valid_coordinates model inputCoordinates = true ->
  inputCoordinates <> [] ->
  0 < windowSize -> windowSize < SIZE_MODULUS - 1 ->
  let model' := model ++ lowered (length model) windowSize inputCoordinates in
  exists variance,
    AddToModel (new_IncrementalVarianceFeature id inputFeature windowSize)
      featureOutputs model = (inr variance, model') /\
    simulate model' [] samples variance =
      run (new_IncrementalVarianceFeature id inputFeature windowSize)
        (simulate model [] samples inputCoordinates) /\
    length (simulate model' [] samples variance) = length samples.
Proof.
  intros Hin Hvalid Hne Hpos Hw. cbv zeta.
  exists (BuildCoordinateList (length model + 11) (length inputCoordinates)).
  split; [|split].
  - apply (AddToModel_lowers (new_IncrementalVarianceFeature id inputFeature windowSize));
      assumption.
  - rewrite (simulate_refines model windowSize inputCoordinates Hvalid Hne Hpos Hw
               samples [] (new_IncrementalVarianceFeature id inputFeature windowSize)).
    + rewrite take_nil. reflexivity.
    + rewrite drop_nil. apply refines_new.
  - generalize (@nil (LayerState num)).
    induction samples as [|sample rest IH]; intros states; [reflexivity|].
    cbn [simulate].
    destruct (Compute (model ++ lowered (length model) windowSize inputCoordinates)
                states sample) as [outputs states'].
    cbn [length]. rewrite IH. reflexivity.
Qed.

(** The input port shows the samples themselves. *)
Lemma simulate_input (d : nat) (samples : list (list num)) :
  Forall (fun row => length row = d) samples ->
  forall states,
    simulate [InputLayer d] states samples (BuildCoordinateList 0 d) = samples.
Proof.
  induction 1 as [|sample rest Hsample Hrest IH]; intros states; [reflexivity|].
  cbn [simulate Compute compute_layers compute_layer app].
  rewrite IH. f_equal.
  rewrite (reads_layer _ 0 d (resize d num_zero sample));
    [ | reflexivity | apply length_resize ].
  apply resize_all_alt. symmetry. exact Hsample.
Qed.

(** The smallest feature graph, the model's input feeding the variance
    feature: on every stream of samples of dimension [d > 0] the lowered
    model outputs what the evaluator returns. *)
Corollary lowered_input_pipeline (id : string) (inputFeature : FeaturePtr)
    (windowSize : N) (d : nat) (samples : list (list num)) :
  (0 < d)%nat -> 0 < windowSize -> windowSize < SIZE_MODULUS - 1 ->
  Forall (fun row => length row = d) samples ->
  simulate ([InputLayer d] ++ lowered 1 windowSize (BuildCoordinateList 0 d)) [] samples
      (BuildCoordinateList 12 d) =
    run (new_IncrementalVarianceFeature id inputFeature windowSize) samples.
Proof.
  intros Hd Hpos Hw Hu.
  pose proof (simulate_refines [InputLayer d] windowSize (BuildCoordinateList 0 d)) as Href.
  rewrite length_BuildCoordinateList in Href. cbn [length Nat.add] in Href.
  assert (valid_coordinates (num := num) [InputLayer d] (BuildCoordinateList 0 d) = true)
    as Hvalid.
  { apply (valid_BuildCoordinateList [InputLayer d] 0 d (InputLayer d)); reflexivity. }
  assert (BuildCoordinateList 0 d <> []) as Hne.
  { destruct d; [lia | discriminate]. }
  rewrite (Href Hvalid Hne Hpos Hw samples []
             (new_IncrementalVarianceFeature id inputFeature windowSize)
             (refines_new windowSize d id inputFeature)).
  rewrite take_nil, (simulate_input d samples Hu). reflexivity.
Qed.

End Lowering.

(** The smallest feature graph: the model's input port of width 1, lowered
    at layer 0, feeds the variance feature. *)
Definition input_model : Model float := [InputLayer 1].
Definition input_coordinates : CoordinateList := BuildCoordinateList 0 1.
Definition input_lowered : gmap FeaturePtr CoordinateList := {[1 := input_coordinates]}.

Lemma AddToModel_needs_lowered_input_witness :
  let self := new_IncrementalVarianceFeature (num := float) "variance" 1 3 in
  (∅ : gmap FeaturePtr CoordinateList) !! (_inputFeatures self !!! 0%nat) = None /\
  AddToModel self ∅ input_model =
    (inl (Exception illegalState "Couldn't find input feature"), input_model) /\
  input_lowered !! (_inputFeatures self !!! 0%nat) = Some input_coordinates /\
  valid_coordinates input_model input_coordinates = true /\
  GetWindowSize self < SIZE_MODULUS - 1 /\
  AddToModel self input_lowered input_model =
    (inr (BuildCoordinateList (length input_model + 11) (length input_coordinates)),
     input_model ++ lowered (length input_model) (GetWindowSize self) input_coordinates) /\
  length (lowered (length input_model) (GetWindowSize self) input_coordinates) = 12%nat.
Proof.
  split; [reflexivity|].
  split.
  { apply (proj1 (AddToModel_needs_lowered_input
                    (new_IncrementalVarianceFeature (num := float) "variance" 1 3)
                    ∅ input_model)).
    reflexivity. }
  split; [reflexivity|]. split; [reflexivity|]. split; [reflexivity|].
  apply (proj2 (proj2 (AddToModel_needs_lowered_input
                  (new_IncrementalVarianceFeature (num := float) "variance" 1 3)
                  input_lowered input_model)) input_coordinates).
  - reflexivity.
  - reflexivity.
  - reflexivity.
Defined.

Lemma AddToModel_refines_ComputeOutput_witness :
  input_lowered !! 1 = Some input_coordinates /\
  valid_coordinates input_model input_coordinates = true /\
  input_coordinates <> [] /\
  0 < 3 /\ 3 < SIZE_MODULUS - 1 /\
  let model' := input_model ++ lowered (length input_model) 3 input_coordinates in
  exists variance,
    AddToModel (new_IncrementalVarianceFeature "variance" 1 3) input_lowered input_model =
      (inr variance, model') /\
    simulate model' [] scenario_binary64 variance =
      run (new_IncrementalVarianceFeature "variance" 1 3)
        (simulate input_model [] scenario_binary64 input_coordinates) /\
    length (simulate model' [] scenario_binary64 variance) = length scenario_binary64.
Proof.
  split; [reflexivity|]. split; [reflexivity|]. split; [discriminate|].
  split; [reflexivity|]. split; [reflexivity|].
  apply (AddToModel_refines_ComputeOutput (num := float) "variance" 1 3 input_lowered
           input_model input_coordinates scenario_binary64).
  - reflexivity.
  - reflexivity.
  - discriminate.
  - reflexivity.
  - reflexivity.
Defined.

(** The lowered model run on the scenario, on [double]: the variance layer
    shows what [ComputeOutput] returns (see [scenario_binary64_outputs]). *)
Example lowered_model_on_scenario :
  simulate (input_model ++ lowered 1 3 input_coordinates) [] scenario_binary64
      (BuildCoordinateList 12 1) =
    [[(1 - 1 / 3) / 3]; [2 / 3]; [2 / 3]; [2 / 3]; [2 / 3]]%float.
Proof. vm_compute. reflexivity. Qed.

(* ------------------------------------------------------------------ *)
(** ** Further properties of [ComputeOutput] *)
(* ------------------------------------------------------------------ *)

Section StreamFacts.
Context {num : Type} `{Numeric num}.

(** The samples of a stream before its first empty one. *)
Fixpoint nonempty_prefix (samples : list (list num)) : list (list num) :=
  match samples with
  | [] => []
  | [] :: _ => []
  | sample :: rest => sample :: nonempty_prefix rest
  end.

(** X1. Successive calls of [ComputeOutput] produce one output for every sample
    up to the first empty one, whatever the dimensions of the samples are and
    however they change from one call to the next; each output has the
    dimension of its sample. *)
Theorem run_stops_at_first_empty_sample (self : IncrementalVarianceFeature)
    (samples : list (list num)) :
  map length (run self samples) = map length (nonempty_prefix samples).
Proof.
  revert self. induction samples as [|sample rest IH]; intros self; [reflexivity|].
  destruct sample as [|v sample]; [reflexivity|].
  cbn [run nonempty_prefix].
  rewrite (ComputeOutput_nonempty self (v :: sample)) by discriminate.
  cbn [map]. rewrite IH. f_equal.
  rewrite length_zip_with, length_sums_after, length_sumSqs_after. lia.
Qed.

(** X2. When the input has more dimensions than the running sums hold (the first
    call, or a call after the input got wider), the running sum and the
    running sum of squares of a new dimension start from zero: the call
    stores zero plus the delta of that dimension. *)
Theorem ComputeOutput_new_dimension_starts_from_zero
    (self : IncrementalVarianceFeature) (inputData : list num) (j : nat) (newVal : num) :
  (length (_runningSum self) <= j)%nat ->
  (length (_runningSumSq self) <= j)%nat ->
  inputData !! j = Some newVal ->
  exists result self' oldVal,
    ComputeOutput self inputData = inr (result, self') /\
    resize (length inputData) num_zero
      (GetDelayedSamples (set_outputDimension self (length inputData))
         (size_sub (GetWindowSize self) 1)) !! j = Some oldVal /\
    _runningSum self' !! j = Some (num_zero + (newVal - oldVal))%num /\
    _runningSumSq self' !! j =
      Some (num_zero + (newVal * newVal - oldVal * oldVal))%num.
Proof.
  intros Hsum Hsq Hj.
  assert (j < length inputData)%nat as Hlt by (apply lookup_lt_Some in Hj; exact Hj).
  assert (inputData <> []) as Hne by (intros ->; simpl in Hlt; lia).
  destruct (lookup_lt_is_Some_2 (leaving_sample self inputData) j) as [oldVal Hold].
  { unfold leaving_sample. rewrite length_resize. exact Hlt. }
  eexists _, _, oldVal. split; [apply (ComputeOutput_nonempty self inputData Hne)|].
  split; [exact Hold|].
  cbn [state_after _runningSum _runningSumSq].
  unfold sums_after, sumSqs_after, delta_sum, delta_sumSq.
  rewrite !lookup_zip_with, Hold, Hj, !lookup_resize_new by lia.
  split; reflexivity.
Qed.

End StreamFacts.

Lemma ComputeOutput_new_dimension_starts_from_zero_witness :
  let self := state_after (new_IncrementalVarianceFeature "variance" 1 3) [5]%float in
  let inputData := [1; 2]%float in
  (length (_runningSum self) <= 1)%nat /\
  (length (_runningSumSq self) <= 1)%nat /\
  inputData !! 1%nat = Some 2%float /\
  exists result self' oldVal,
    ComputeOutput self inputData = inr (result, self') /\
    resize (length inputData) num_zero
      (GetDelayedSamples (set_outputDimension self (length inputData))
         (size_sub (GetWindowSize self) 1)) !! 1%nat = Some oldVal /\
    _runningSum self' !! 1%nat = Some (num_add num_zero (num_sub 2%float oldVal)) /\
    _runningSumSq self' !! 1%nat =
      Some (num_add num_zero
              (num_sub (num_mul 2%float 2%float) (num_mul oldVal oldVal))).
Proof.
  split; [vm_compute; lia|]. split; [vm_compute; lia|]. split; [reflexivity|].
  apply (ComputeOutput_new_dimension_starts_from_zero
           (state_after (new_IncrementalVarianceFeature "variance" 1 3) [5]%float)
           [1; 2]%float 1%nat 2%float).
  - vm_compute. lia.
  - vm_compute. lia.
  - reflexivity.
Defined.

(** The object after successive calls of [ComputeOutput], one per sample;
    the exception of the first call that throws. *)
Fixpoint advance {num : Type} `{Numeric num} (self : IncrementalVarianceFeature)
    (samples : list (list num)) : Result IncrementalVarianceFeature :=
  match samples with
  | [] => inr self
  | inputData :: rest =>
      match ComputeOutput self inputData with
      | inl e => inl e
      | inr (_, self') => advance self' rest
      end
  end.

Section ExactFacts.
Context {num : Type} `{Numeric num}.
Variables (one : num) (opp : num -> num).
Hypothesis exact_arithmetic : ExactArithmetic num one opp.
Variable windowSize : N.
Variable d : nat.
Hypothesis windowSize_pos : 0 < windowSize.
Hypothesis windowSize_fits : windowSize < SIZE_MODULUS.

(** X3. Warm-up.  In exact arithmetic, while at most [windowSize] samples were
    fed, the output is computed from the samples seen so far but still
    divided by [windowSize]: it is the variance formula over a window whose
    missing samples count as zero, not the variance of the samples seen. *)
Theorem ComputeOutput_warm_up (id : string) (inputFeature : FeaturePtr)
    (samples : list (list num)) (t j : nat) :
  Forall (fun row => length row = d) samples -> (j < d)%nat ->
  (1 <= t)%nat -> (t <= N.to_nat windowSize)%nat -> (t <= length samples)%nat ->
  run (new_IncrementalVarianceFeature id inputFeature windowSize) samples !! (t - 1)%nat
      ≫= (fun result => result !! j) =
    Some (direct_variance windowSize (column j (take t samples))).
Proof.
  intros Hu Hj H1 Hw Hl.
  rewrite (run_window one opp exact_arithmetic windowSize d windowSize_pos windowSize_fits
             samples _ [] (t - 1) j (window_invariant_new windowSize d id inputFeature))
    by (try apply Forall_nil_2; try assumption; lia).
  replace (S (t - 1)) with t by lia.
  rewrite app_nil_r, takeN_take.
  rewrite take_ge by (rewrite length_rev, length_take; lia).
  unfold column. rewrite map_rev.
  rewrite (direct_variance_rev one opp exact_arithmetic). reflexivity.
Qed.

Lemma advance_keeps_window_invariant (samples : list (list num)) :
  forall (self : IncrementalVarianceFeature) (history : list (list num)),
    (0 < d)%nat ->
    window_invariant windowSize d history self ->
    Forall (fun row => length row = d) history ->
    Forall (fun row => length row = d) samples ->
    exists self',
      advance self samples = inr self' /\
      window_invariant windowSize d (rev samples ++ history) self'.
Proof.
  induction samples as [|x rest IH]; intros self history Hd Hinv Hh Hs.
  { exists self. split; [reflexivity | exact Hinv]. }
  apply Forall_cons in Hs as [Hx Hrest].
  assert (x <> []) as Hne by (intros ->; simpl in Hx; lia).
  cbn [advance]. rewrite (ComputeOutput_nonempty self x Hne).
  destruct (IH (state_after self x) (x :: history) Hd) as (self' & Hadv & Hinv').
  - apply (window_invariant_step one opp exact_arithmetic windowSize d
             windowSize_pos windowSize_fits); assumption.
  - apply Forall_cons. split; assumption.
  - exact Hrest.
  - exists self'. split; [exact Hadv|].
    cbn [rev]. rewrite <- app_assoc. exact Hinv'.
Qed.

(** X4. The invariant of the running sums.  In exact arithmetic, after any
    number of calls on samples of one dimension [d > 0], the window holds
    the last [windowSize] samples (all of them while fewer were fed), newest
    first, and in every dimension the running sum and the running sum of
    squares are the sum and the sum of squares over that window. *)
Theorem ComputeOutput_sums_are_window_sums (id : string) (inputFeature : FeaturePtr)
    (samples : list (list num)) :
  (0 < d)%nat -> Forall (fun row => length row = d) samples ->
  exists self',
    advance (new_IncrementalVarianceFeature id inputFeature windowSize) samples = inr self' /\
    _samples self' = take (N.to_nat windowSize) (rev samples) /\
    forall j, (j < d)%nat ->
      component j (_runningSum self') =
        sum_of (column j (take (N.to_nat windowSize) (rev samples))) /\
      component j (_runningSumSq self') =
        sum_of (map square (column j (take (N.to_nat windowSize) (rev samples)))).
Proof.
  intros Hd Hu.
  destruct (advance_keeps_window_invariant samples
              (new_IncrementalVarianceFeature id inputFeature windowSize) [] Hd
              (window_invariant_new windowSize d id inputFeature)
              (Forall_nil_2 _) Hu) as (self' & Hadv & _ & Hs & Hsum & Hsq).
  rewrite app_nil_r, takeN_take in *.
  exists self'. split; [exact Hadv|]. split; [exact Hs|].
  intros j Hj. split; [apply Hsum | apply Hsq]; exact Hj.
Qed.

End ExactFacts.

(** Tick 2 of the scenario in exact arithmetic: the window is [1, 2] and a
    zero, the divisor is 3. *)
Lemma ComputeOutput_warm_up_witness :
  ExactArithmetic Qc (Q2Qc 1) Qcopp /\ 0 < 3 /\ 3 < SIZE_MODULUS /\
  Forall (fun row => length row = 1%nat) scenario_exact /\
  run (new_IncrementalVarianceFeature "variance" 1 3) scenario_exact !! (2 - 1)%nat
      ≫= (fun result => result !! 0%nat) =
    Some (direct_variance 3 (column 0 (take 2 scenario_exact))).
Proof.
  split; [exact exact_is_exact|]. split; [reflexivity|]. split; [reflexivity|].
  split; [repeat constructor|].
  apply (ComputeOutput_warm_up (Q2Qc 1) Qcopp exact_is_exact 3 1%nat
           eq_refl eq_refl "variance" 1 scenario_exact 2%nat 0%nat).
  - repeat constructor.
  - lia.
  - lia.
  - vm_compute. lia.
  - vm_compute. lia.
Defined.

Lemma ComputeOutput_sums_are_window_sums_witness :
  ExactArithmetic Qc (Q2Qc 1) Qcopp /\ 0 < 3 /\ 3 < SIZE_MODULUS /\
  Forall (fun row => length row = 1%nat) scenario_exact /\
  exists self',
    advance (new_IncrementalVarianceFeature "variance" 1 3) scenario_exact = inr self' /\
    _samples self' = take (N.to_nat 3) (rev scenario_exact) /\
    forall j, (j < 1)%nat ->
      component j (_runningSum self') =
        sum_of (column j (take (N.to_nat 3) (rev scenario_exact))) /\
      component j (_runningSumSq self') =
        sum_of (map square (column j (take (N.to_nat 3) (rev scenario_exact)))).
Proof.
  split; [exact exact_is_exact|]. split; [reflexivity|]. split; [reflexivity|].
  split; [repeat constructor|].
  apply (ComputeOutput_sums_are_window_sums (Q2Qc 1) Qcopp exact_is_exact 3 1%nat
           eq_refl eq_refl "variance" 1 scenario_exact).
  - lia.
  - repeat constructor.
Defined.

(* ------------------------------------------------------------------ *)
(** ** Further properties of [AddToModel] and [Create] *)
(* ------------------------------------------------------------------ *)

Section LoweringFacts.
Context {num : Type} `{Numeric num}.

Lemma simulate_no_coordinates (model : Model num) (samples : list (list num)) :
  forall states, simulate model states samples [] = replicate (length samples) [].
Proof.
  induction samples as [|sample rest IH]; intros states; [reflexivity|].
  cbn [simulate]. destruct (Compute model states sample) as [outputs states'].
  cbn [length replicate]. rewrite IH. reflexivity.
Qed.

(** X5. The lowering has no test for a zero-width input.  If the input feature
    was lowered to an empty coordinate list, [AddToModel] still succeeds: it
    appends its twelve layers and returns an empty coordinate list, at which
    the model shows an empty vector at every tick.  The evaluator throws on
    the same input, so it produces no output at all: at width zero the two
    execution forms differ. *)
Theorem AddToModel_accepts_zero_width (self : IncrementalVarianceFeature)
    (featureOutputs : gmap FeaturePtr CoordinateList) (model : Model num)
    (samples : list (list num)) :
  featureOutputs !! (_inputFeatures self !!! 0%nat) = Some [] ->
  GetWindowSize self < SIZE_MODULUS - 1 ->
  let model' := model ++ lowered (length model) (GetWindowSize self) [] in
  AddToModel self featureOutputs model = (inr [], model') /\
  length (lowered (length model) (GetWindowSize self) []) = 12%nat /\
  simulate model' [] samples [] = replicate (length samples) [] /\
  run self (simulate model [] samples []) = [].
Proof.
  intros Hin Hw. cbv zeta. split; [|split; [reflexivity|split]].
  - rewrite (AddToModel_lowers self featureOutputs model [] Hin eq_refl Hw). reflexivity.
  - apply simulate_no_coordinates.
  - rewrite simulate_no_coordinates. destruct samples; reflexivity.
Qed.

(** The coordinates [AddToModel] returns belong to the model it leaves. *)
Lemma lowered_output_valid (model : Model num) (windowSize : N)
    (inputCoordinates : CoordinateList) :
  valid_coordinates (model ++ lowered (length model) windowSize inputCoordinates)
    (BuildCoordinateList (length model + 11) (length inputCoordinates)) = true.
Proof.
  unfold lowered. cbv zeta. eapply valid_new_layer; [reflexivity|].
  cbn [OutputSize]. rewrite length_BuildCoordinateList. lia.
Qed.

(** X6. Lowerings compose.  A second variance feature whose input is the first
    one can be lowered right after it, from the coordinates the first
    lowering returned; it appends twelve more layers, and the model then
    shows, tick by tick, the outputs of the second evaluator fed with the
    outputs of the first. *)
Theorem AddToModel_composes (id1 id2 : string) (input feature1 : FeaturePtr)
    (windowSize1 windowSize2 : N) (featureOutputs : gmap FeaturePtr CoordinateList)
    (model : Model num) (inputCoordinates : CoordinateList) (samples : list (list num)) :
  featureOutputs !! input = Some inputCoordinates ->
  valid_coordinates model inputCoordinates = true ->
  inputCoordinates <> [] ->
  0 < windowSize1 -> windowSize1 < SIZE_MODULUS - 1 ->
  0 < windowSize2 -> windowSize2 < SIZE_MODULUS - 1 ->
  let variance1 := new_IncrementalVarianceFeature id1 input windowSize1 in
  let variance2 := new_IncrementalVarianceFeature id2 feature1 windowSize2 in
  let model1 := model ++ lowered (length model) windowSize1 inputCoordinates in
  let output1 := BuildCoordinateList (length model + 11) (length inputCoordinates) in
  let model2 := model1 ++ lowered (length model1) windowSize2 output1 in
  let output2 := BuildCoordinateList (length model1 + 11) (length inputCoordinates) in
  AddToModel variance1 featureOutputs model = (inr output1, model1) /\
  AddToModel variance2 (<[feature1 := output1]> featureOutputs) model1 =
    (inr output2, model2) /\
  simulate model2 [] samples output2 =
    run variance2 (run variance1 (simulate model [] samples inputCoordinates)).
Proof.
  intros Hin Hvalid Hne Hpos1 Hw1 Hpos2 Hw2. cbv zeta.
  pose proof (lowered_output_valid model windowSize1 inputCoordinates) as Hvalid1.
  assert (BuildCoordinateList (length model + 11) (length inputCoordinates) <> [])
    as Hne1.
  { destruct inputCoordinates; [congruence | discriminate]. }
  split; [|split].
  - apply (AddToModel_lowers (new_IncrementalVarianceFeature id1 input windowSize1));
      assumption.
  - rewrite (AddToModel_lowers (new_IncrementalVarianceFeature id2 feature1 windowSize2)
               (<[feature1 := BuildCoordinateList (length model + 11)
                                (length inputCoordinates)]> featureOutputs)
               (model ++ lowered (length model) windowSize1 inputCoordinates)
               (BuildCoordinateList (length model + 11) (length inputCoordinates))).
    + rewrite length_BuildCoordinateList. reflexivity.
    + apply lookup_insert_eq.
    + exact Hvalid1.
    + exact Hw2.
  - pose proof (simulate_refines _ windowSize2 _ Hvalid1 Hne1 Hpos2 Hw2 samples []
                  (new_IncrementalVarianceFeature id2 feature1 windowSize2)) as Hsecond.
    rewrite length_BuildCoordinateList in Hsecond.
    rewrite Hsecond by (rewrite drop_nil; apply refines_new).
    rewrite take_nil.
    rewrite (simulate_refines model windowSize1 inputCoordinates Hvalid Hne Hpos1 Hw1
               samples [] (new_IncrementalVarianceFeature id1 input windowSize1))
      by (rewrite drop_nil; apply refines_new).
    rewrite take_nil. reflexivity.
Qed.

Variable ParseInt : string -> Result Z.

(** X7. [Create] never removes or rebinds an entry of the registry, whether it
    returns or throws: the registry it leaves contains the one it was given,
    and the only id it may add is the input feature id. *)
Theorem Create_keeps_registry_entries (params : list string)
    (previousFeatures : gmap string FeaturePtr) :
  length params = 4%nat ->
  previousFeatures ⊆ snd (Create (num := num) ParseInt params previousFeatures) /\
  dom (snd (Create (num := num) ParseInt params previousFeatures)) =
    dom previousFeatures ∪ {[params !!! 2%nat]}.
Proof.
  intros _.
  assert (snd (Create (num := num) ParseInt params previousFeatures) =
            snd (subscript previousFeatures (params !!! 2%nat))) as ->.
  { unfold Create. destruct (subscript previousFeatures (params !!! 2%nat)) as [p m].
    destruct (ParseInt (params !!! 3%nat)) as [e|parsed]; [reflexivity|].
    destruct (decide (p = nullptr)); reflexivity. }
  unfold subscript.
  destruct (previousFeatures !! (params !!! 2%nat)) as [p|] eqn:Hk; cbn [snd].
  - split; [reflexivity|]. apply elem_of_dom_2 in Hk.
    rewrite (comm_L union). symmetry.
    apply subseteq_union_1_L, singleton_subseteq_l, Hk.
  - split; [apply insert_subseteq; exact Hk|].
    rewrite dom_insert_L. apply (comm_L union).
Qed.

End LoweringFacts.

Lemma AddToModel_accepts_zero_width_witness :
  let self := new_IncrementalVarianceFeature (num := float) "variance" 1 3 in
  let featureOutputs : gmap FeaturePtr CoordinateList := {[1 := []]} in
  featureOutputs !! (_inputFeatures self !!! 0%nat) = Some [] /\
  GetWindowSize self < SIZE_MODULUS - 1 /\
  AddToModel self featureOutputs input_model =
    (inr [], input_model ++ lowered (length input_model) (GetWindowSize self) []) /\
  length (lowered (num := float) (length input_model) (GetWindowSize self) []) = 12%nat /\
  simulate (input_model ++ lowered (length input_model) (GetWindowSize self) []) []
      scenario_binary64 [] = replicate (length scenario_binary64) [] /\
  run self (simulate input_model [] scenario_binary64 []) = [].
Proof.
  split; [reflexivity|]. split; [reflexivity|].
  apply (AddToModel_accepts_zero_width
           (new_IncrementalVarianceFeature (num := float) "variance" 1 3)
           {[1 := []]} input_model scenario_binary64).
  - reflexivity.
  - reflexivity.
Defined.

Lemma AddToModel_composes_witness :
  let variance1 := new_IncrementalVarianceFeature (num := float) "variance" 1 3 in
  let variance2 := new_IncrementalVarianceFeature (num := float) "variance2" 2 2 in
  let model1 := input_model ++ lowered (length input_model) 3 input_coordinates in
  let output1 := BuildCoordinateList (length input_model + 11) (length input_coordinates) in
  let model2 := model1 ++ lowered (length model1) 2 output1 in
  let output2 := BuildCoordinateList (length model1 + 11) (length input_coordinates) in
  input_lowered !! 1 = Some input_coordinates /\
  valid_coordinates input_model input_coordinates = true /\
  input_coordinates <> [] /\
  0 < 3 /\ 3 < SIZE_MODULUS - 1 /\ 0 < 2 /\ 2 < SIZE_MODULUS - 1 /\
  AddToModel variance1 input_lowered input_model = (inr output1, model1) /\
  AddToModel variance2 (<[2 := output1]> input_lowered) model1 = (inr output2, model2) /\
  simulate model2 [] scenario_binary64 output2 =
    run variance2
      (run variance1 (simulate input_model [] scenario_binary64 input_coordinates)).
Proof.
  split; [reflexivity|]. split; [reflexivity|]. split; [discriminate|].
  split; [reflexivity|]. split; [reflexivity|]. split; [reflexivity|].
  split; [reflexivity|].
  apply (AddToModel_composes (num := float) "variance" "variance2" 1 2 3 2 input_lowered
           input_model input_coordinates scenario_binary64).
  - reflexivity.
  - reflexivity.
  - discriminate.
  - reflexivity.
  - reflexivity.
  - reflexivity.
  - reflexivity.
Defined.

Lemma Create_keeps_registry_entries_witness :
  let params := ["variance"; "IncrementalVariance"; "missing"; "8"] in
  let previousFeatures : gmap string FeaturePtr := {["input" := 7]} in
  length params = 4%nat /\
  previousFeatures ⊆ snd (Create (num := float) ParseInt_decimal params previousFeatures) /\
  dom (snd (Create (num := float) ParseInt_decimal params previousFeatures)) =
    dom previousFeatures ∪ {[params !!! 2%nat]}.
Proof.
  split; [reflexivity|].
  apply (Create_keeps_registry_entries (num := float) ParseInt_decimal
           ["variance"; "IncrementalVariance"; "missing"; "8"] {["input" := 7]}).
  reflexivity.
Defined.

End features.









(* ================================================================== *)
(** * emitters: IROptimizer *)
(* ================================================================== *)

Module emitters.

(** What can be observed of a run of the pass managers: which pass ran, in
    which order, and the verdict of the verifier. *)
Inductive Event : Set :=
| Verified (wellFormed : bool)
| RanFunctionPass (name : string)
| RanModulePass (name : string).

(** [llvm::PassManagerBuilder], with the fields [AddStandardPasses] sets.
    [Inliner] holds the arguments of [createFunctionInliningPass]. *)
Record PassManagerBuilder : Set := mkBuilder {
  OptLevel : N;
  SizeLevel : N;
  Inliner : option (N * N * bool);
  LoopVectorize : bool;
  SLPVectorize : bool
}.

Section IROptimizer.

(** The toolchain is external: its IR, its verifier and the passes its
    builder populates are parameters of the embedding. *)
Variable LLVMFunction : Type.
Variable LLVMModule : Type.

(** [true] when the function passes LLVM's structural verification. *)
Variable wellFormed : LLVMFunction -> bool.

(** A pass of the function pass manager: the verifier of
    [llvm::createVerifierPass()], which stops the process on a malformed
    function, or a transformation. *)
Inductive FunctionPass : Type :=
| VerifierPass
| FunctionTransform (name : string) (transform : LLVMFunction -> LLVMFunction).

(** A pass of the module pass manager. *)
Inductive ModulePass : Type :=
| ModuleTransform (name : string) (transform : LLVMModule -> LLVMModule).

Variable populateFunctionPassManager : PassManagerBuilder -> list FunctionPass.
Variable populateModulePassManager : PassManagerBuilder -> list ModulePass.

(** The object: [_functionPasses] and [_modulePasses], each the passes added
    so far, in the order they were added. *)
Record IROptimizer : Type := mkOptimizer {
  _functionPasses : list FunctionPass;
  _modulePasses : list ModulePass
}.

(** [IROptimizer::IROptimizer(module)]: two empty pass managers. *)
Definition new_IROptimizer : IROptimizer :=
  {| _functionPasses := []; _modulePasses := [] |}.

(** The builder as [AddStandardPasses] configures it. *)
Definition standard_builder : PassManagerBuilder :=
  {| OptLevel := 3;
     SizeLevel := 0;
     Inliner := Some (3, 0, false);
     LoopVectorize := true;
     SLPVectorize := true |}.

(** [IROptimizer::AddStandardPasses].  The final
    [targetMachine->adjustPassManager(builder)] changes the local [builder]
    after both managers were populated from it, and the builder is not used
    again: it leaves the managers as they are. *)
Definition AddStandardPasses (self : IROptimizer) : IROptimizer :=
  let functionPasses := _functionPasses self ++ [VerifierPass] in
  let builder := standard_builder in
  {| _functionPasses := functionPasses ++ populateFunctionPassManager builder;
     _modulePasses := _modulePasses self ++ populateModulePassManager builder |}.

(** [FunctionPassManager::run]: the passes in the order they were added. The
    result is [None] when the verifier stopped the run. *)
Fixpoint run_function_passes (passes : list FunctionPass) (f : LLVMFunction)
    : list Event * option LLVMFunction :=
  match passes with
  | [] => ([], Some f)
  | VerifierPass :: rest =>
      if wellFormed f then
        let '(events, result) := run_function_passes rest f in
        (Verified true :: events, result)
      else ([Verified false], None)
  | FunctionTransform name transform :: rest =>
      let '(events, result) := run_function_passes rest (transform f) in
      (RanFunctionPass name :: events, result)
  end.

(** [PassManager::run] on a module. *)
Fixpoint run_module_passes (passes : list ModulePass) (m : LLVMModule)
    : list Event * LLVMModule :=
  match passes with
  | [] => ([], m)
  | ModuleTransform name transform :: rest =>
      let '(events, result) := run_module_passes rest (transform m) in
      (RanModulePass name :: events, result)
  end.

(** [IROptimizer::OptimizeFunction]. *)
Definition OptimizeFunction (self : IROptimizer) (pFunction : LLVMFunction)
    : list Event * option LLVMFunction :=
  run_function_passes (_functionPasses self) pFunction.

(** [IROptimizer::OptimizeModule]. *)
Definition OptimizeModule (self : IROptimizer) (pModule : LLVMModule)
    : list Event * LLVMModule :=
  run_module_passes (_modulePasses self) pModule.

(** C7, as the code has it.  After [AddStandardPasses] on a new optimizer,
    [OptimizeFunction] verifies first: on a malformed function the run stops
    at the verifier and no function-level pass runs; on a well-formed one the
    function-level passes of the builder follow the verifier, in the
    builder's order.  [OptimizeModule] is a separate entry point: it runs
    the module-level passes of the builder and nothing else, so it is the
    caller who runs function-level optimization before module-level
    optimization. *)
Theorem AddStandardPasses_order :
  let self := AddStandardPasses new_IROptimizer in
  (forall f, wellFormed f = false ->
     OptimizeFunction self f = ([Verified false], None)) /\
  (forall f, wellFormed f = true ->
     OptimizeFunction self f =
       (Verified true
          :: fst (run_function_passes (populateFunctionPassManager standard_builder) f),
        snd (run_function_passes (populateFunctionPassManager standard_builder) f))) /\
  (forall m,
     OptimizeModule self m =
       run_module_passes (populateModulePassManager standard_builder) m).
Proof.
  cbv zeta. unfold OptimizeFunction, OptimizeModule, AddStandardPasses.
  cbn [new_IROptimizer _functionPasses _modulePasses app run_function_passes].
  repeat split.
  - intros f Hf. rewrite Hf. reflexivity.
  - intros f Hf. rewrite Hf.
    destruct (run_function_passes (populateFunctionPassManager standard_builder) f).
    reflexivity.
Qed.

End IROptimizer.

(** A toolchain small enough to run: a function is well-formed or not, a
    module is a list of functions, and the builder populates one pass in each
    manager. *)
Definition toy_function_passes (builder : PassManagerBuilder) : list (FunctionPass bool) :=
  [FunctionTransform bool "function-level" (fun f => f)].

Definition toy_module_passes (builder : PassManagerBuilder) : list (ModulePass (list bool)) :=
  [ModuleTransform (list bool) "module-level" (fun m => m)].

Definition toy_optimizer : IROptimizer bool (list bool) :=
  AddStandardPasses bool (list bool) toy_function_passes toy_module_passes
    (new_IROptimizer bool (list bool)).

(** C7, as stated, fails: on a module with a malformed function,
    [OptimizeModule] runs module-level optimization with no verification and
    no function-level optimization before it; and a caller may run
    [OptimizeModule] before [OptimizeFunction]. *)
Lemma OptimizeModule_runs_unverified :
  forallb (fun f => f) [true; false] = false /\
  OptimizeModule bool (list bool) toy_optimizer [true; false] =
    ([RanModulePass "module-level"], [true; false]) /\
  OptimizeFunction bool (list bool) (fun f => f) toy_optimizer true =
    ([Verified true; RanFunctionPass "function-level"], Some true).
Proof. repeat split. Qed.

Lemma AddStandardPasses_order_witness :
  OptimizeFunction bool (list bool) (fun f => f) toy_optimizer false =
    ([Verified false], None).
Proof.
  apply (proj1 (AddStandardPasses_order bool (list bool) (fun f => f)
                  toy_function_passes toy_module_passes) false).
  reflexivity.
Defined.

Section IROptimizerFacts.
Variable LLVMFunction : Type.
Variable LLVMModule : Type.
Variable wellFormed : LLVMFunction -> bool.
Variable populateFunctionPassManager : PassManagerBuilder -> list (FunctionPass LLVMFunction).
Variable populateModulePassManager : PassManagerBuilder -> list (ModulePass LLVMModule).

Lemma run_function_passes_app (passes1 passes2 : list (FunctionPass LLVMFunction)) :
  forall f,
    run_function_passes LLVMFunction wellFormed (passes1 ++ passes2) f =
      match run_function_passes LLVMFunction wellFormed passes1 f with
      | (events1, None) => (events1, None)
      | (events1, Some f1) =>
          let '(events2, result) := run_function_passes LLVMFunction wellFormed passes2 f1 in
          (events1 ++ events2, result)
      end.
Proof.
  induction passes1 as [|pass passes1 IH]; intros f.
  - cbn [app run_function_passes].
    destruct (run_function_passes LLVMFunction wellFormed passes2 f). reflexivity.
  - destruct pass as [|name transform]; cbn [app run_function_passes].
    + destruct (wellFormed f); [|reflexivity]. rewrite IH.
      destruct (run_function_passes LLVMFunction wellFormed passes1 f) as [events1 [f1|]];
        [|reflexivity].
      destruct (run_function_passes LLVMFunction wellFormed passes2 f1). reflexivity.
    + rewrite IH.
      destruct (run_function_passes LLVMFunction wellFormed passes1 (transform f))
        as [events1 [f1|]]; [|reflexivity].
      destruct (run_function_passes LLVMFunction wellFormed passes2 f1). reflexivity.
Qed.

Lemma run_module_passes_app (passes1 passes2 : list (ModulePass LLVMModule)) :
  forall m,
    run_module_passes LLVMModule (passes1 ++ passes2) m =
      let '(events1, m1) := run_module_passes LLVMModule passes1 m in
      let '(events2, m2) := run_module_passes LLVMModule passes2 m1 in
      (events1 ++ events2, m2).
Proof.
  induction passes1 as [|[name transform] passes1 IH]; intros m.
  - cbn [app run_module_passes].
    destruct (run_module_passes LLVMModule passes2 m). reflexivity.
  - cbn [app run_module_passes]. rewrite IH.
    destruct (run_module_passes LLVMModule passes1 (transform m)) as [events1 m1].
    destruct (run_module_passes LLVMModule passes2 m1). reflexivity.
Qed.

(** X8. [AddStandardPasses] is cumulative.  It adds the verifier and the
    builder's passes after the passes the optimizer already holds and clears
    nothing, so on an optimizer that was configured before, [OptimizeFunction]
    first runs the earlier pipeline and then, on its result, the whole
    standard pipeline again (verifier included), and [OptimizeModule] runs the
    earlier module pipeline and then the standard one again. *)
Theorem AddStandardPasses_accumulates
    (self : IROptimizer LLVMFunction LLVMModule) (f : LLVMFunction) (m : LLVMModule) :
  let configure :=
    AddStandardPasses LLVMFunction LLVMModule
      populateFunctionPassManager populateModulePassManager in
  let standard := configure (new_IROptimizer LLVMFunction LLVMModule) in
  OptimizeFunction LLVMFunction LLVMModule wellFormed (configure self) f =
    match OptimizeFunction LLVMFunction LLVMModule wellFormed self f with
    | (events1, None) => (events1, None)
    | (events1, Some f1) =>
        let '(events2, result) :=
          OptimizeFunction LLVMFunction LLVMModule wellFormed standard f1 in
        (events1 ++ events2, result)
    end /\
  OptimizeModule LLVMFunction LLVMModule (configure self) m =
    let '(events1, m1) := OptimizeModule LLVMFunction LLVMModule self m in
    let '(events2, m2) := OptimizeModule LLVMFunction LLVMModule standard m1 in
    (events1 ++ events2, m2).
Proof.
  cbv zeta. unfold OptimizeFunction, OptimizeModule, AddStandardPasses.
  cbn [new_IROptimizer _functionPasses _modulePasses app].
  split.
  - rewrite <- app_assoc. apply run_function_passes_app.
  - apply run_module_passes_app.
Qed.

End IROptimizerFacts.

(** Configured twice, the toy optimizer verifies and optimizes twice. *)
Example AddStandardPasses_twice :
  OptimizeFunction bool (list bool) (fun f => f)
      (AddStandardPasses bool (list bool) toy_function_passes toy_module_passes
         toy_optimizer) true =
    ([Verified true; RanFunctionPass "function-level";
      Verified true; RanFunctionPass "function-level"], Some true).
Proof. reflexivity. Qed.

End emitters.
